(** * hitcon-online: player synchronisation model and map renderer

    A shallow embedding of
    - [common/gamelib/player.mjs] (classes [Player] and
      [PlayerSyncMessage]), and
    - the [MapRenderer] class together with the guidepost extension
      client ([extensions/guidepost/common/client.mjs]),
    followed by the properties of these programs.

    Conventions of the embedding.
    - A JavaScript number is a [number]: either [NaN] or an exact rational
      [Fin q].  Rounding of IEEE doubles and the two infinities are not
      modelled; every divisor in the code is a non-zero constant.  The
      properties below are those that do not depend on how a double is
      rounded: which branch is taken, what is selected, copied or
      compared, and arithmetic on values that doubles hold exactly.
    - A property that may hold [undefined] is an [option]; [None] is
      [undefined].
    - [MapCoord] objects are mutable and shared by reference, so they live
      in a store ([heap]) and the fields that hold them hold locations.
    - Properties have the types of the specification's data model
      (strings, booleans, numbers, coordinates); values of another type
      are not modelled, and [null] is modelled where the code assigns it
      or compares with it (the player that the viewport follows).
    - A method that may throw hands back how the call ended, next to
      the object as the call left it.
    - [Date.now()] is an argument [now] of the functions that read the
      clock. *)

From Stdlib Require Import QArith Qcanon Qround.
From Stdlib Require Import Lqa.
From stdpp Require Import gmap strings list numbers.

Local Open Scope Qc_scope.

(** ** JavaScript numbers *)

Inductive number : Type :=
| NaN
| Fin (q : Qc).

Declare Scope num_scope.
Delimit Scope num_scope with num.
Bind Scope num_scope with number.

Module Num.

Definition of_Z (z : Z) : number := Fin (Qc_of_Z z).

(** [a + b], [a - b], [a * b] on numbers: [NaN] is absorbing. *)
Definition lift2 (f : Qc → Qc → Qc) (a b : number) : number :=
  match a, b with
  | Fin p, Fin q => Fin (f p q)
  | _, _ => NaN
  end.

Definition add : number → number → number := lift2 Qcplus.
Definition sub : number → number → number := lift2 Qcminus.
Definition mul : number → number → number := lift2 Qcmult.

(** [a / b].  JavaScript yields an infinity (or [NaN] for [0/0]) when
    [b] is zero; the model has no infinities and answers [NaN]. *)
Definition div (a b : number) : number :=
  match a, b with
  | Fin p, Fin q => if decide (q = 0) then NaN else Fin (p / q)
  | _, _ => NaN
  end.

(** [a < b]: false as soon as one side is [NaN]. *)
Definition ltb (a b : number) : bool :=
  match a, b with
  | Fin p, Fin q => bool_decide (p < q)
  | _, _ => false
  end.

(** [a >= b]. *)
Definition geb (a b : number) : bool :=
  match a, b with
  | Fin p, Fin q => bool_decide (q ≤ p)
  | _, _ => false
  end.

(** [-a]. *)
Definition opp (a : number) : number :=
  match a with
  | Fin p => Fin (- p)
  | NaN => NaN
  end.

(** [a === b] on numbers: [NaN] is not equal to itself. *)
Definition strict_eq (a b : number) : bool :=
  match a, b with
  | Fin p, Fin q => bool_decide (p = q)
  | _, _ => false
  end.

(** [Math.max(a, b)] and [Math.min(a, b)]. *)
Definition max (a b : number) : number :=
  match a, b with
  | Fin p, Fin q => if decide (p < q) then Fin q else Fin p
  | _, _ => NaN
  end.

Definition min (a b : number) : number :=
  match a, b with
  | Fin p, Fin q => if decide (q < p) then Fin q else Fin p
  | _, _ => NaN
  end.

(** [Math.floor(a)]. *)
Definition floor (a : number) : number :=
  match a with
  | Fin p => of_Z (Qfloor p)
  | NaN => NaN
  end.

(** [a % b]: the remainder has the sign of the dividend,
    [a - b * trunc(a / b)]. *)
Definition trunc (q : Qc) : Z :=
  if decide (0 ≤ q) then Qfloor q else Qceiling q.

Definition rem (a b : number) : number :=
  match a, b with
  | Fin p, Fin q =>
      if decide (q = 0) then NaN
      else Fin (p - q * Qc_of_Z (trunc (p / q)))
  | _, _ => NaN
  end.

(** [ToNumber] of a property that is a number or [undefined]. *)
Definition of_option (a : option number) : number :=
  match a with
  | Some n => n
  | None => NaN
  end.

End Num.

Infix "+" := Num.add : num_scope.
Infix "-" := Num.sub : num_scope.
Infix "*" := Num.mul : num_scope.
Infix "/" := Num.div : num_scope.
Infix "<?" := Num.ltb : num_scope.
Infix ">=?" := Num.geb (at level 70, no associativity) : num_scope.
Notation "- a" := (Num.opp a) : num_scope.
Infix "===" := Num.strict_eq (at level 70, no associativity) : num_scope.
Infix "%%" := Num.rem (at level 40, left associativity) : num_scope.

(** ** The store of [MapCoord] objects and the monad of the methods *)

(** Modelled from the spec: the class [MapCoord] of [maplib/map.mjs] is
    the spec's Coordinate, a pair [{x, y}] of numbers in map units that is
    compared field by field. *)
Record MapCoord : Type := mkMapCoord { x : number; y : number }.

Definition loc : Type := positive.

(** What the methods can observe and change: the coordinate objects and
    the lines written with [console.error]. *)
Record state : Type := mkState {
  store : gmap loc MapCoord;
  console : list string;
}.

Inductive outcome (A : Type) : Type :=
| Ok (a : A) (s : state)
| TypeError.

Arguments Ok {A} a s.
Arguments TypeError {A}.

(** A method reads and writes the state and either returns or throws. *)
Definition M (A : Type) : Type := state → outcome A.

#[global] Instance M_ret : MRet M := λ A a s, Ok a s.

#[global] Instance M_bind : MBind M := λ A B k m s,
  match m s with
  | Ok a s' => k a s'
  | TypeError => TypeError
  end.

(** [console.error(line)]. *)
Definition console_error (line : string) : M unit :=
  λ s, Ok tt (mkState (store s) (console s ++ [line])).

(** [new] of a coordinate object: a location that is not in use. *)
Definition alloc (c : MapCoord) : M loc :=
  λ s, let l := fresh (dom (store s)) in
       Ok l (mkState (<[l := c]> (store s)) (console s)).

(** Reading through a reference.  A property access on [undefined]
    throws; a reference handed out by [alloc] is always in the store. *)
Definition deref (r : option loc) : M MapCoord :=
  λ s, match r with
       | Some l => match store s !! l with
                   | Some c => Ok c s
                   | None => TypeError
                   end
       | None => TypeError
       end.

Definition get_x (r : option loc) : M number := c ← deref r; mret (x c).
Definition get_y (r : option loc) : M number := c ← deref r; mret (y c).

(** [o.x = v] and [o.y = v] on the object at [l]. *)
Definition set_x (l : loc) (v : number) : M unit :=
  λ s, match store s !! l with
       | Some c =>
           Ok tt (mkState (<[l := mkMapCoord v (y c)]> (store s)) (console s))
       | None => TypeError
       end.

Definition set_y (l : loc) (v : number) : M unit :=
  λ s, match store s !! l with
       | Some c =>
           Ok tt (mkState (<[l := mkMapCoord (x c) v]> (store s)) (console s))
       | None => TypeError
       end.

Module MapCoordClass.

(** Modelled from the spec: [MapCoord.fromObject(obj)] builds a new
    coordinate object from the [x] and [y] of [obj]. *)
Definition fromObject (obj : option loc) : M loc :=
  c ← deref obj;
  alloc (mkMapCoord (x c) (y c)).

(** Modelled from the spec: [a.equalsTo(b)] compares the two
    coordinates field by field. *)
Definition equalsTo (a b : loc) : M bool :=
  ca ← deref (Some a);
  cb ← deref (Some b);
  mret ((x ca === x cb)%num && (y ca === y cb)%num).

End MapCoordClass.

(** ** Plain objects on the wire *)

(** A key of a plain object is missing, or present with a value that may
    be [undefined]: [key in obj] tells the two apart, [obj.key] does
    not. *)
Inductive property (A : Type) : Type :=
| NoKey
| Key (v : option A).

Arguments NoKey {A}.
Arguments Key {A} v.

Definition get {A} (p : property A) : option A :=
  match p with
  | Key v => v
  | NoKey => None
  end.

Definition has {A} (p : property A) : bool :=
  match p with
  | Key _ => true
  | NoKey => false
  end.

(** The plain objects that [toJSON] builds and [fromObject] reads,
    restricted to the keys the two classes use. *)
Module Obj.

Record t : Type := mk {
  playerID : property string;
  displayName : property string;
  displayChar : property string;
  mapCoord : property loc;
  facing : property string;
  lastMovingTime : property number;
  removed : property bool;
  clientTime : property number;
  updateSuccess : property bool;
}.

(** [{}] *)
Definition empty : t :=
  mk NoKey NoKey NoKey NoKey NoKey NoKey NoKey NoKey NoKey.

End Obj.

(** ** [class PlayerSyncMessage] *)

Module PlayerSyncMessage.

Record t : Type := mk {
  playerID : option string;
  mapCoord : option loc;
  facing : option string;
  displayName : option string;
  displayChar : option string;
  removed : option bool;
  clientTime : option number;
  updateSuccess : option bool;
}.

(** Assignments [this.key = v]. *)
Definition set_mapCoord (v : option loc) (this : t) : t :=
  mk (playerID this) v (facing this) (displayName this) (displayChar this)
     (removed this) (clientTime this) (updateSuccess this).
Definition set_facing (v : option string) (this : t) : t :=
  mk (playerID this) (mapCoord this) v (displayName this) (displayChar this)
     (removed this) (clientTime this) (updateSuccess this).
Definition set_displayName (v : option string) (this : t) : t :=
  mk (playerID this) (mapCoord this) (facing this) v (displayChar this)
     (removed this) (clientTime this) (updateSuccess this).
Definition set_displayChar (v : option string) (this : t) : t :=
  mk (playerID this) (mapCoord this) (facing this) (displayName this) v
     (removed this) (clientTime this) (updateSuccess this).
Definition set_removed (v : option bool) (this : t) : t :=
  mk (playerID this) (mapCoord this) (facing this) (displayName this)
     (displayChar this) v (clientTime this) (updateSuccess this).
Definition set_clientTime (v : option number) (this : t) : t :=
  mk (playerID this) (mapCoord this) (facing this) (displayName this)
     (displayChar this) (removed this) v (updateSuccess this).
Definition set_updateSuccess (v : option bool) (this : t) : t :=
  mk (playerID this) (mapCoord this) (facing this) (displayName this)
     (displayChar this) (removed this) (clientTime this) v.

(** The object [new] hands to the constructor: no property yet. *)
Definition blank : t := mk None None None None None None None None.

Definition should_not_be_undefined : string :=
  "'playerID' of class 'PlayerSyncMessage' should not be undefined.".

(** [new PlayerSyncMessage(playerID, mapCoord, ...)].  The constructor
    returns nothing in either branch, so [new] yields the object under
    construction. *)
Definition constructor
    (playerID : option string) (mapCoord : option loc)
    (facing displayName displayChar : option string)
    (removed : option bool) (clientTime : option number)
    (updateSuccess : option bool) : M t :=
  match playerID with
  | None =>
      console_error should_not_be_undefined;;
      mret blank
  | Some _ =>
      mret (mk playerID mapCoord facing displayName displayChar
               (Some (default false removed)) clientTime updateSuccess)
  end.

(** [toJSON()]: [playerID] is always written, another key only when
    the property is defined. *)
Definition put {A} (v : option A) : property A :=
  if v is Some _ then Key v else NoKey.

Definition toJSON (this : t) : Obj.t :=
  Obj.mk (Key (playerID this))
         (put (displayName this))
         (put (displayChar this))
         (put (mapCoord this))
         (put (facing this))
         NoKey
         (put (removed this))
         (put (clientTime this))
         (put (updateSuccess this)).

(** [PlayerSyncMessage.fromObject(obj)]. *)
Definition fromObject (obj : Obj.t) : M t :=
  ret ← constructor (get (Obj.playerID obj))
                    None None None None None None None;
  ret ← (if get (Obj.mapCoord obj) is Some _ then
           c ← MapCoordClass.fromObject (get (Obj.mapCoord obj));
           mret (set_mapCoord (Some c) ret)
         else mret ret);
  let ret := if get (Obj.facing obj) is Some _
             then set_facing (get (Obj.facing obj)) ret else ret in
  let ret := if get (Obj.displayName obj) is Some _
             then set_displayName (get (Obj.displayName obj)) ret else ret in
  let ret := if get (Obj.displayChar obj) is Some _
             then set_displayChar (get (Obj.displayChar obj)) ret else ret in
  let ret := if get (Obj.removed obj) is Some _
             then set_removed (get (Obj.removed obj)) ret else ret in
  let ret := if get (Obj.clientTime obj) is Some _
             then set_clientTime (get (Obj.clientTime obj)) ret else ret in
  let ret := if get (Obj.updateSuccess obj) is Some _
             then set_updateSuccess (get (Obj.updateSuccess obj)) ret
           else ret in
  mret ret.

End PlayerSyncMessage.

(** ** [class Player] *)

Definition PLAYER_MOVE_ANIMATION_FRAME_RATE : number := Num.of_Z 100.

(** [s + t] where [s] is a string or [undefined]. *)
Definition concat (s : option string) (t : string) : string :=
  default "undefined" s +:+ t.

Module Player.

Record t : Type := mk {
  playerID : option string;
  displayName : option string;
  displayChar : option string;
  mapCoord : option loc;
  facing : option string;
  lastMovingTime : option number;
  _previousMapCoord : option loc;
  removed : option bool;
}.

(** Assignments [this.key = v]. *)
Definition set_playerID (v : option string) (this : t) : t :=
  mk v (displayName this) (displayChar this) (mapCoord this) (facing this)
     (lastMovingTime this) (_previousMapCoord this) (removed this).
Definition set_displayName (v : option string) (this : t) : t :=
  mk (playerID this) v (displayChar this) (mapCoord this) (facing this)
     (lastMovingTime this) (_previousMapCoord this) (removed this).
Definition set_displayChar (v : option string) (this : t) : t :=
  mk (playerID this) (displayName this) v (mapCoord this) (facing this)
     (lastMovingTime this) (_previousMapCoord this) (removed this).
Definition set_mapCoord (v : option loc) (this : t) : t :=
  mk (playerID this) (displayName this) (displayChar this) v (facing this)
     (lastMovingTime this) (_previousMapCoord this) (removed this).
Definition set_facing (v : option string) (this : t) : t :=
  mk (playerID this) (displayName this) (displayChar this) (mapCoord this) v
     (lastMovingTime this) (_previousMapCoord this) (removed this).
Definition set_lastMovingTime (v : option number) (this : t) : t :=
  mk (playerID this) (displayName this) (displayChar this) (mapCoord this)
     (facing this) v (_previousMapCoord this) (removed this).
Definition set_previousMapCoord (v : option loc) (this : t) : t :=
  mk (playerID this) (displayName this) (displayChar this) (mapCoord this)
     (facing this) (lastMovingTime this) v (removed this).
Definition set_removed (v : option bool) (this : t) : t :=
  mk (playerID this) (displayName this) (displayChar this) (mapCoord this)
     (facing this) (lastMovingTime this) (_previousMapCoord this) v.

(** The names that [toJSON] and [fromObject] go through.  The loops
    over this list are unrolled in the two functions below. *)
Definition ATTRIBUTES : list string :=
  ["playerID"; "displayName"; "displayChar"; "mapCoord"; "facing";
   "lastMovingTime"].

(** [new Player(playerID)]. *)
Definition constructor (playerID : option string) : t :=
  mk playerID playerID (Some "char1") None (Some "D") None None None.

(** The object returned by [getDrawInfo]. *)
Record DrawInfo : Type := mkDrawInfo {
  di_mapCoord : option loc;
  di_displayChar : option string;
  di_facing : option string;
  di_displayName : option string;
}.

Section WithMoveInterval.

(** The constant of [move-check.mjs], in milliseconds. *)
Variable PLAYER_MOVE_TIME_INTERVAL : number.

(** [getDrawInfo()], with the clock reading [now].  The interpolation is
    computed on exact rationals, where the code rounds every operation
    to a double. *)
Definition getDrawInfo (this : t) (now : number) : M DrawInfo :=
  let smoothMoveEnd :=
    (Num.of_option (lastMovingTime this) + PLAYER_MOVE_TIME_INTERVAL)%num in
  '(retMapCoord, retFacing) ←
    (if (now <? smoothMoveEnd)%num then
       inter ← MapCoordClass.fromObject (mapCoord this);
       let frac := ((now - Num.of_option (lastMovingTime this))
                    / PLAYER_MOVE_TIME_INTERVAL)%num in
       px ← get_x (_previousMapCoord this);
       cx ← get_x (mapCoord this);
       set_x inter ((Num.of_Z 1 - frac) * px + frac * cx)%num;;
       py ← get_y (_previousMapCoord this);
       cy ← get_y (mapCoord this);
       set_y inter ((Num.of_Z 1 - frac) * py + frac * cy)%num;;
       let phase :=
         (Num.floor (now / PLAYER_MOVE_ANIMATION_FRAME_RATE)
          %% Num.of_Z 4)%num in
       let retFacing :=
         if (phase === Num.of_Z 0)%num then Some (concat (facing this) "R")
         else if (phase === Num.of_Z 2)%num then Some (concat (facing this) "L")
         else facing this in
       mret (Some inter, retFacing)
     else
       mret (mapCoord this, facing this));
  mret (mkDrawInfo retMapCoord (displayChar this) retFacing
                   (displayName this)).

End WithMoveInterval.

(** [updateFromMessage(msg)], with the clock reading [now]; the result
    is the returned boolean and the player after the call. *)
Definition updateFromMessage (this : t) (msg : PlayerSyncMessage.t)
    (now : number) : M (bool * t) :=
  if negb (bool_decide (PlayerSyncMessage.playerID msg = playerID this)) then
    mret (false, this)
  else
    this ← (if PlayerSyncMessage.mapCoord msg is Some m then
              moved ← (if mapCoord this is Some c then
                         same ← MapCoordClass.equalsTo m c;
                         mret (negb same)
                       else mret false);
              let this := if moved : bool
                          then set_lastMovingTime (Some now) this
                          else this in
              let this :=
                set_previousMapCoord
                  (if mapCoord this is Some _ then mapCoord this
                   else PlayerSyncMessage.mapCoord msg) this in
              mret (set_mapCoord (PlayerSyncMessage.mapCoord msg) this)
            else mret this);
    let this := if PlayerSyncMessage.facing msg is Some _
                then set_facing (PlayerSyncMessage.facing msg) this
                else this in
    let this := if PlayerSyncMessage.displayName msg is Some _
                then set_displayName (PlayerSyncMessage.displayName msg) this
                else this in
    let this := if PlayerSyncMessage.displayChar msg is Some _
                then set_displayChar (PlayerSyncMessage.displayChar msg) this
                else this in
    let this := if PlayerSyncMessage.removed msg is Some _
                then set_removed (PlayerSyncMessage.removed msg) this
                else this in
    mret (true, this).

(** [Player.getRedisKey(playerID)] and [Player.getDataStoreKey(playerID)]:
    the template literal [`p-${playerID}`]. *)
Definition getRedisKey (playerID : option string) : string :=
  "p-" +:+ default "undefined" playerID.

Definition getDataStoreKey (playerID : option string) : string :=
  "p-" +:+ default "undefined" playerID.

(** [toJSON()]: every name of [ATTRIBUTES] becomes a key, whatever the
    value of the property. *)
Definition toJSON (this : t) : Obj.t :=
  Obj.mk (Key (playerID this))
         (Key (displayName this))
         (Key (displayChar this))
         (Key (mapCoord this))
         (Key (facing this))
         (Key (lastMovingTime this))
         NoKey NoKey NoKey.

(** [if (key in objsrc) objdst[key] = objsrc[key]], as the new value of
    [objdst[key]]. *)
Definition assignIfDefined {A} (dst : option A) (src : property A)
    : option A :=
  if has src then get src else dst.

(** [Player.fromObject(obj)]. *)
Definition fromObject (obj : Obj.t) : M t :=
  let ret := constructor (get (Obj.playerID obj)) in
  let ret := set_playerID
               (assignIfDefined (playerID ret) (Obj.playerID obj)) ret in
  let ret := set_displayName
               (assignIfDefined (displayName ret) (Obj.displayName obj)) ret in
  let ret := set_displayChar
               (assignIfDefined (displayChar ret) (Obj.displayChar obj)) ret in
  let ret := set_mapCoord
               (assignIfDefined (mapCoord ret) (Obj.mapCoord obj)) ret in
  let ret := set_facing
               (assignIfDefined (facing ret) (Obj.facing obj)) ret in
  let ret := set_lastMovingTime
               (assignIfDefined (lastMovingTime ret) (Obj.lastMovingTime obj))
               ret in
  if get (Obj.mapCoord obj) is Some _ then
    c ← MapCoordClass.fromObject (get (Obj.mapCoord obj));
    let ret := set_mapCoord (Some c) ret in
    p ← MapCoordClass.fromObject (get (Obj.mapCoord obj));
    mret (set_previousMapCoord (Some p) ret)
  else mret ret.

End Player.

(** ** [class MapRenderer] *)

Definition mapCellSize : number := Num.of_Z 32.
Definition fontStyle : string := "12px serif".

Module MapRenderer.

(** What [getCellRenderInfo] and [getCharacter] return. *)
Record RenderInfo : Type := mkRenderInfo {
  image : string;
  srcX : number;
  srcY : number;
  srcWidth : number;
  srcHeight : number;
}.

(** The calls made on the 2D context [this.ctx], in order. *)
Inductive command : Type :=
| drawImage (info : RenderInfo) (dx dy dWidth dHeight : number)
| save
| set_font (style : string)
| set_textAlign (align : string)
| set_textBaseline (baseline : string)
| fillText (text : option string) (tx ty : number)
| restore.

(** The canvas element and the answer of [this.map.getMapSize()]. *)
Record Size : Type := mkSize { width : Z; height : Z }.

(** A player as [this.gameState.getPlayers()] lists it. *)
Record Sprite : Type := mkSprite {
  sx : number;
  sy : number;
  displayChar : option string;
  facing : option string;
  displayName : option string;
}.

Record t : Type := mk {
  canvas : Size;
  mapSize : Size;
  players : list Sprite;
  viewerPosition : number * number;
  ctx : list command;
}.

Definition set_viewerPosition (v : number * number) (this : t) : t :=
  mk (canvas this) (mapSize this) (players this) v (ctx this).

(** A call [this.ctx.f(...)]. *)
Definition call (c : command) (this : t) : t :=
  mk (canvas this) (mapSize this) (players this) (viewerPosition this)
     (ctx this ++ [c]).

(** [new MapRenderer(canvas, map, gameState)]. *)
Definition constructor (canvas mapSize : Size) (players : list Sprite) : t :=
  mk canvas mapSize players (NaN, NaN) [].

(** [setViewerPosition(x, y)]. *)
Definition setViewerPosition (this : t) (x y : number) : t :=
  let minX :=
    (Num.of_Z (width (canvas this)) / Num.of_Z 2 / mapCellSize)%num in
  let maxX := (Num.of_Z (width (mapSize this)) - minX)%num in
  let minY :=
    (Num.of_Z (height (canvas this)) / Num.of_Z 2 / mapCellSize)%num in
  let maxY := (Num.of_Z (height (mapSize this)) - minY)%num in
  let x := Num.min (Num.max x minX) maxX in
  let y := Num.min (Num.max y minY) maxY in
  set_viewerPosition (x, y) this.

(** [canvasToMapCoordinate(x, y)]. *)
Definition canvasToMapCoordinate (this : t) (x y : number)
    : number * number :=
  let canvasCenter := ((Num.of_Z (width (canvas this)) / Num.of_Z 2)%num,
                       (Num.of_Z (height (canvas this)) / Num.of_Z 2)%num) in
  ((fst (viewerPosition this) + (x - fst canvasCenter) / mapCellSize)%num,
   (snd (viewerPosition this) + (y - snd canvasCenter) / mapCellSize)%num).

(** [mapToCanvasCoordinate(x, y)].  [Math.floor] is taken of the exact
    value, where the code takes it of a rounded double. *)
Definition mapToCanvasCoordinate (this : t) (x y : number)
    : number * number :=
  let canvasCenter := ((Num.of_Z (width (canvas this)) / Num.of_Z 2)%num,
                       (Num.of_Z (height (canvas this)) / Num.of_Z 2)%num) in
  (Num.floor
     (fst canvasCenter + (x - fst (viewerPosition this)) * mapCellSize)%num,
   Num.floor
     (snd canvasCenter + (y - snd (viewerPosition this)) * mapCellSize)%num).

(** The values of [i] in [for (let i = first; i <= last; ++i)] when the
    bounds come out of [Math.floor]; no iteration when a bound is
    [NaN]. *)
Definition range (first last : number) : list Z :=
  match first, last with
  | Fin p, Fin q => seqZ (Qfloor p) (Qfloor q - Qfloor p + 1)
  | _, _ => []
  end.

(** How a call ends: it returns a value, or an exception leaves it. *)
Inductive result (A : Type) : Type :=
| returns (a : A)
| throws.

Arguments returns {A} a.
Arguments throws {A}.

(** [for (...) { body }] with a body that may throw: the turns are taken
    in order, and the turn that throws ends the loop. *)
Fixpoint for_each {A} (body : t → A → t * result unit) (this : t)
    (l : list A) : t * result unit :=
  match l with
  | [] => (this, returns ())
  | a :: l =>
      let '(this, r) := body this a in
      match r with
      | returns _ => for_each body this l
      | throws => (this, throws)
      end
  end.

Section WithAssets.

(** [this.map.getCellRenderInfo(layer, x, y)] and
    [this.map.graphicAsset.getCharacter(displayChar, facing)].  The
    answer is [undefined] ([None]) when the asset is missing; reading
    [renderInfo.image] then throws a [TypeError]. *)
Variable getCellRenderInfo : string → Z → Z → option RenderInfo.
Variable getCharacter : option string → option string → option RenderInfo.

(** [_drawGround()]: the renderer after the call, and the returned
    boolean unless the call throws. *)
Definition _drawGround (this : t) : t * result bool :=
  let firstCellMapCoordFloat :=
    canvasToMapCoordinate this (Num.of_Z 0) (Num.of_Z 0) in
  let firstCellMapCoordInt :=
    (Num.floor (fst firstCellMapCoordFloat),
     Num.floor (snd firstCellMapCoordFloat)) in
  let lastCellMapCoordFloat :=
    canvasToMapCoordinate this (Num.of_Z (width (canvas this)))
                               (Num.of_Z (height (canvas this))) in
  let lastCellMapCoordInt :=
    (Num.floor (fst lastCellMapCoordFloat),
     Num.floor (snd lastCellMapCoordFloat)) in
  let ret := true in
  let '(this, r) :=
    for_each (λ this mapY,
      for_each (λ this mapX,
        if bool_decide (mapX < 0 ∨ width (mapSize this) ≤ mapX ∨
                        mapY < 0 ∨ height (mapSize this) ≤ mapY)%Z
        then (this, returns ())
        else
          let renderInfo := getCellRenderInfo "ground" mapX mapY in
          let canvasCoordinate :=
            mapToCanvasCoordinate this (Num.of_Z mapX) (Num.of_Z mapY) in
          match renderInfo with
          | Some renderInfo =>
              (call (drawImage renderInfo (fst canvasCoordinate)
                               (snd canvasCoordinate) mapCellSize mapCellSize)
                    this,
               returns ())
          | None => (this, throws)
          end)
        this
        (range (fst firstCellMapCoordInt) (fst lastCellMapCoordInt)))
      this
      (range (snd firstCellMapCoordInt) (snd lastCellMapCoordInt)) in
  match r with
  | returns _ => (this, returns ret)
  | throws => (this, throws)
  end.

(** [_drawPlayers()]. *)
Definition _drawPlayers (this : t) : t * result bool :=
  let '(this, r) :=
    for_each (λ this p,
      let canvasCoordinate := mapToCanvasCoordinate this (sx p) (sy p) in
      if (fst canvasCoordinate <? - mapCellSize)%num
         || (fst canvasCoordinate >=? Num.of_Z (width (canvas this)))%num
         || (snd canvasCoordinate <? - mapCellSize)%num
         || (snd canvasCoordinate >=? Num.of_Z (height (canvas this)))%num
      then (this, returns ())
      else
        let renderInfo := getCharacter (displayChar p) (facing p) in
        match renderInfo with
        | Some renderInfo =>
            (call (drawImage renderInfo (fst canvasCoordinate)
                             (snd canvasCoordinate) mapCellSize mapCellSize)
                  this,
             returns ())
        | None => (this, throws)
        end)
      this (players this) in
  match r with
  | throws => (this, throws)
  | returns _ =>
      let this := call save this in
      let this := call (set_font fontStyle) this in
      let this := call (set_textAlign "center") this in
      let this := call (set_textBaseline "bottom") this in
      let this :=
        foldl (λ this p,
          let canvasCoordinate :=
            mapToCanvasCoordinate this
              (sx p + Fin (Qc_of_Z 1 / Qc_of_Z 2))%num (sy p) in
          call (fillText (displayName p) (fst canvasCoordinate)
                         (snd canvasCoordinate)) this)
          this (players this) in
      let this := call restore this in
      (this, returns true)
  end.

(** [ret &&= f()]: the call is made only when [ret] is true, and what it
    returns is assigned to [ret]; an exception of the call leaves the
    statement. *)
Definition and_assign (ret : bool) (f : t → t * result bool) (this : t)
    : t * result bool :=
  if ret then f this else (this, returns ret).

(** [draw()].  There is no [try] in it: an exception of a layer leaves
    [draw] too. *)
Definition draw (this : t) : t * result bool :=
  let ret := true in
  let '(this, r) := and_assign ret _drawGround this in
  match r with
  | throws => (this, throws)
  | returns ret =>
      let '(this, r) := and_assign ret _drawPlayers this in
      match r with
      | throws => (this, throws)
      | returns ret => (this, returns ret)
      end
  end.

End WithAssets.

End MapRenderer.

(** ** Customized layers *)

(** The renderer that the guidepost client talks to lets extensions
    register layers.  The class above has no method for that, so the
    registration follows the specification; [draw] is the one of the
    class. *)
Module LayerRegistry.

(** Modelled from the spec: the registry of [MapRenderer] is missing
    from the sources.  An entry is [(zIndex, name, drawFn, data)]; the
    draw callback receives the renderer (canvas and viewport) and the
    registered data and reports success. *)
Record Layer : Type := mkLayer {
  zIndex : Z;
  layerName : string;
  Data : Type;
  drawFn : Data → MapRenderer.t → MapRenderer.t * bool;
  data : Data;
}.

(** Modelled from the spec: [registerCustomizedLayerToDraw] is the
    spec's RegisterLayer, missing from the sources.  It adds the entry,
    replacing the one registered under the same name; nothing is drawn
    at that point. *)
Definition registerCustomizedLayerToDraw
    (zIndex : Z) (layerName : string) {Data : Type}
    (drawFn : Data → MapRenderer.t → MapRenderer.t * bool) (data : Data)
    (registry : list Layer) : list Layer :=
  filter (λ l, LayerRegistry.layerName l ≠ layerName) registry
    ++ [mkLayer zIndex layerName Data drawFn data].

(** Modelled from the spec: the renderer keeps the layers that have
    been registered with it.  The [MapRenderer] of the sources has no
    property for them, so the registry is kept beside its state. *)
Record Renderer : Type := mkRenderer {
  mapRenderer : MapRenderer.t;
  customizedLayers : list Layer;
}.

Section WithAssets.

Variable getCellRenderInfo : string → Z → Z → option MapRenderer.RenderInfo.
Variable getCharacter :
  option string → option string → option MapRenderer.RenderInfo.

(** [draw()] on that renderer.  It is the method of [MapRenderer]: it
    reads the canvas, the map, the game state and the viewer position,
    and nothing that was registered. *)
Definition draw (this : Renderer) : Renderer * MapRenderer.result bool :=
  let '(renderer, r) :=
    MapRenderer.draw getCellRenderInfo getCharacter (mapRenderer this) in
  (mkRenderer renderer (customizedLayers this), r).

End WithAssets.

End LayerRegistry.

(** ** The guidepost extension, client side *)

Module Client.

Definition LAYER_GUIDEPOST_zIndex : Z := -10.
Definition LAYER_GUIDEPOST_layerName : string := "guidepost".

(** An entry of [guideposts.json], with the image attached to it by
    [gameStart]. *)
Record Guidepost : Type := mkGuidepost {
  assetName : string;
  src : string;
  image : option (string * string);
}.

Definition attach (g : Guidepost) : Guidepost :=
  mkGuidepost (assetName g) (src g) (Some (assetName g, src g)).

Section WithLoader.

(** Whether the image at a given [src] loads; decided by the
    network. *)
Variable loads : string → bool.

(** The method named ['_drawWatermark'] of the renderer. *)
Variable _drawWatermark :
  list Guidepost → MapRenderer.t → MapRenderer.t * bool.

(** [gameStart()], given the content of [guideposts.json] and the
    registry of [this.helper.mapRenderer].  [Promise.all] rejects
    with the failure that comes first; here that is the first in the
    list. *)
Definition gameStart (guideposts : list Guidepost)
    (registry : list LayerRegistry.Layer) : M (list LayerRegistry.Layer) :=
  let guideposts := attach <$> guideposts in
  match filter (λ g, loads (src g) = false) guideposts with
  | [] =>
      mret (LayerRegistry.registerCustomizedLayerToDraw
              LAYER_GUIDEPOST_zIndex LAYER_GUIDEPOST_layerName
              _drawWatermark guideposts registry)
  | g :: _ =>
      console_error ("error on loading " +:+ src g);;
      mret registry
  end.

(** [Client.haveClient()]. *)
Definition haveClient : bool := false.

End WithLoader.

End Client.

(** * Vocabulary of the properties *)

(** The coordinate a property refers to, if any. *)
Definition coord (s : state) (r : option loc) : option MapCoord :=
  l ← r; store s !! l.

(** A reference held by a live object points into the store. *)
Definition allocated (s : state) (r : option loc) : Prop :=
  ∀ l, r = Some l → is_Some (store s !! l).

(** [a] and [b] hold different coordinates: [!a.equalsTo(b)]. *)
Definition differs (s : state) (a b : loc) : Prop :=
  MapCoordClass.equalsTo a b s = Ok false s.

Module Sample.

Definition at_ (a b : Z) : MapCoord := mkMapCoord (Num.of_Z a) (Num.of_Z b).

(** Four coordinate objects: [(5,5)] at 1, [(4,5)] at 2, [(5,5)] at 3
    and [(6,5)] at 4. *)
Definition s0 : state :=
  mkState (list_to_map [(1%positive, at_ 5 5); (2%positive, at_ 4 5);
                        (3%positive, at_ 5 5); (4%positive, at_ 6 5)]) [].

Definition t0 : number := Num.of_Z 1000.
Definition now : number := Num.of_Z 5000.

(** Player "p1" stands on [(5,5)], came from [(4,5)], moved at [t0]. *)
Definition p1 : Player.t :=
  Player.mk (Some "p1") (Some "p1") (Some "char1") (Some 1%positive)
            (Some "D") (Some t0) (Some 2%positive) None.

(** Player "p1" before the first position arrives. *)
Definition p1_new : Player.t := Player.constructor (Some "p1").

(** Messages for "p1": the same position, another position, no
    position; and a message for "p2". *)
Definition msg_same : PlayerSyncMessage.t :=
  PlayerSyncMessage.mk (Some "p1") (Some 3%positive) None None None
                       (Some false) None None.
Definition msg_move : PlayerSyncMessage.t :=
  PlayerSyncMessage.mk (Some "p1") (Some 4%positive) None None None
                       (Some false) None None.
Definition msg_other : PlayerSyncMessage.t :=
  PlayerSyncMessage.mk (Some "p2") (Some 4%positive) (Some "U") None None
                       (Some false) None None.

End Sample.

(** C1 as the specification words it, for one call: the previous
    position becomes the prior position exactly when the position in the
    message differs from it. *)
Definition previous_follows_change
    (this : Player.t) (msg : PlayerSyncMessage.t) (now : number) (s : state)
    : Prop :=
  ∀ q m this' s',
    Player.mapCoord this = Some q →
    PlayerSyncMessage.mapCoord msg = Some m →
    Player.updateFromMessage this msg now s = Ok (true, this') s' →
    (coord s' (Player._previousMapCoord this') = coord s (Some q)
     ↔ differs s m q).

(** C2 as the specification words it, for one message: every property
    comes back as it was, defined or [undefined]. *)
Definition message_roundtrip_exact (m : PlayerSyncMessage.t) (s : state)
    : Prop :=
  ∃ m' s',
    PlayerSyncMessage.fromObject (PlayerSyncMessage.toJSON m) s = Ok m' s' ∧
    PlayerSyncMessage.playerID m' = PlayerSyncMessage.playerID m ∧
    coord s' (PlayerSyncMessage.mapCoord m')
      = coord s (PlayerSyncMessage.mapCoord m) ∧
    PlayerSyncMessage.facing m' = PlayerSyncMessage.facing m ∧
    PlayerSyncMessage.displayName m' = PlayerSyncMessage.displayName m ∧
    PlayerSyncMessage.displayChar m' = PlayerSyncMessage.displayChar m ∧
    PlayerSyncMessage.removed m' = PlayerSyncMessage.removed m ∧
    PlayerSyncMessage.clientTime m' = PlayerSyncMessage.clientTime m ∧
    PlayerSyncMessage.updateSuccess m' = PlayerSyncMessage.updateSuccess m.

(** The same for one player. *)
Definition player_roundtrip_exact (p : Player.t) (s : state) : Prop :=
  ∃ p' s',
    Player.fromObject (Player.toJSON p) s = Ok p' s' ∧
    Player.playerID p' = Player.playerID p ∧
    Player.displayName p' = Player.displayName p ∧
    Player.displayChar p' = Player.displayChar p ∧
    coord s' (Player.mapCoord p') = coord s (Player.mapCoord p) ∧
    Player.facing p' = Player.facing p ∧
    Player.lastMovingTime p' = Player.lastMovingTime p ∧
    coord s' (Player._previousMapCoord p')
      = coord s (Player._previousMapCoord p) ∧
    Player.removed p' = Player.removed p.

(** The position that [getDrawInfo] hands to the renderer at time [now],
    when the call returns. *)
Definition drawn_position (T : number) (this : Player.t) (now : number)
    (s : state) : option MapCoord :=
  match Player.getDrawInfo T this now s with
  | Ok info s' => coord s' (Player.di_mapCoord info)
  | TypeError => None
  end.

(** The coordinate [(1 - frac) * a + frac * b], field by field. *)
Definition lerp (frac : number) (a b : MapCoord) : MapCoord :=
  mkMapCoord ((Num.of_Z 1 - frac) * x a + frac * x b)%num
             ((Num.of_Z 1 - frac) * y a + frac * y b)%num.

(** C5 as the specification words it, for one renderer: whether or not
    the ground layer fails, [draw] goes on to the player layer and then
    returns a flag. *)
Definition draws_every_layer
    (getCellRenderInfo : string → Z → Z → option MapRenderer.RenderInfo)
    (getCharacter :
       option string → option string → option MapRenderer.RenderInfo)
    (this : MapRenderer.t) : Prop :=
  ∃ ret : bool,
    MapRenderer.draw getCellRenderInfo getCharacter this
    = (fst (MapRenderer._drawPlayers getCharacter
              (fst (MapRenderer._drawGround getCellRenderInfo this))),
       MapRenderer.returns ret).




Module SampleRenderer.

Definition noInfo : MapRenderer.RenderInfo :=
  MapRenderer.mkRenderInfo "" (Num.of_Z 0) (Num.of_Z 0) (Num.of_Z 32)
                           (Num.of_Z 32).

(** A canvas of 640 by 480 pixels over a map of 100 by 100 cells, one
    player on cell [(10, 10)], the viewer at the centre of that cell. *)
Definition r0 : MapRenderer.t :=
  MapRenderer.setViewerPosition
    (MapRenderer.constructor
       (MapRenderer.mkSize 640 480) (MapRenderer.mkSize 100 100)
       [MapRenderer.mkSprite (Num.of_Z 10) (Num.of_Z 10) (Some "char1")
                             (Some "D") (Some "p1")])
    (Fin (Qc_of_Z 21 / Qc_of_Z 2)) (Fin (Qc_of_Z 21 / Qc_of_Z 2)).

(** A map and a sheet of characters with every asset. *)
Definition every_cell (layer : string) (mapX mapY : Z)
    : option MapRenderer.RenderInfo :=
  Some noInfo.

Definition every_character (displayChar facing : option string)
    : option MapRenderer.RenderInfo :=
  Some noInfo.

(** A map that has no render info for the cell [(10, 5)]. *)
Definition cell_10_5_missing (layer : string) (mapX mapY : Z)
    : option MapRenderer.RenderInfo :=
  if bool_decide (mapX = 10 ∧ mapY = 5)%Z then None else Some noInfo.


End SampleRenderer.

(** The bounds that [setViewerPosition] computes. *)
Definition minX (this : MapRenderer.t) : Qc :=
  Qc_of_Z (MapRenderer.width (MapRenderer.canvas this)) / Qc_of_Z 2
  / Qc_of_Z 32.
Definition maxX (this : MapRenderer.t) : Qc :=
  Qc_of_Z (MapRenderer.width (MapRenderer.mapSize this)) - minX this.
Definition minY (this : MapRenderer.t) : Qc :=
  Qc_of_Z (MapRenderer.height (MapRenderer.canvas this)) / Qc_of_Z 2
  / Qc_of_Z 32.
Definition maxY (this : MapRenderer.t) : Qc :=
  Qc_of_Z (MapRenderer.height (MapRenderer.mapSize this)) - minY this.

Definition inside (this : MapRenderer.t) (x y : Qc) : Prop :=
  minX this ≤ x ≤ maxX this ∧ minY this ≤ y ≤ maxY this.

(** The same for a position as JavaScript has it: a position with a
    [NaN] coordinate is not inside. *)
Definition inside_range (this : MapRenderer.t) (p : number * number) : Prop :=
  match p with
  | (Fin x, Fin y) => inside this x y
  | _ => False
  end.

(** C8 as the specification words it, for one request [(x, y)] of any
    numbers: a request inside the range is stored unchanged, and with a
    range that is not degenerate a request outside is stored as a
    position inside. *)
Definition clamps_request (this : MapRenderer.t) (x y : number) : Prop :=
  (inside_range this (x, y) →
     MapRenderer.viewerPosition (MapRenderer.setViewerPosition this x y)
     = (x, y)) ∧
  (¬ inside_range this (x, y) →
     minX this ≤ maxX this → minY this ≤ maxY this →
     inside_range this
       (MapRenderer.viewerPosition (MapRenderer.setViewerPosition this x y))).

(** * The viewport that follows a player *)

(** The part of [MapRenderer] that the properties above do without: the
    renderer together with [this.viewportFollow] and the player id held
    by [this.gameClient]. *)
Module Follow.

(** [null], or the value that was assigned. *)
Inductive nullable (A : Type) : Type :=
| null
| value (a : A).

Arguments null {A}.
Arguments value {A} a.

Record t : Type := mk {
  renderer : MapRenderer.t;
  gameClient : nullable (option string);
  viewportFollow : nullable (option string);
}.

(** What the game state reports when a player has moved; the
    [playerID] of the report may be [null]. *)
Record Location : Type := mkLocation {
  playerID : nullable (option string);
  lx : number;
  ly : number;
}.

(** [a === b] on values that are [null], [undefined] or a string. *)
Definition strict_eq (a b : nullable (option string)) : bool :=
  match a, b with
  | null, null => true
  | value a, value b => bool_decide (a = b)
  | _, _ => false
  end.

Definition half : number := Fin (Qc_of_Z 1 / Qc_of_Z 2).

(** [new MapRenderer(canvas, map, gameState)]: no client, nobody to
    follow. *)
Definition constructor (canvas mapSize : MapRenderer.Size)
    (players : list MapRenderer.Sprite) : t :=
  mk (MapRenderer.constructor canvas mapSize players) null null.

(** [setGameClient(gameClient)], for a client whose
    [playerInfo.playerID] is given. *)
Definition setGameClient (this : t) (playerID : option string) : t :=
  mk (renderer this) (value playerID) (viewportFollow this).

(** [this.viewportFollow === loc.playerID]. *)
Definition follows (this : t) (loc : Location) : bool :=
  strict_eq (viewportFollow this) (playerID loc).

(** The callback that the constructor hands to
    [gameState.registerPlayerLocationChange]. *)
Definition onPlayerLocationChange (this : t) (loc : Location) : t :=
  if follows this loc then
    mk (MapRenderer.setViewerPosition (renderer this)
          (lx loc + half)%num (ly loc + half)%num)
       (gameClient this) (viewportFollow this)
  else this.

Section WithGameState.

(** [this.gameState.getPlayer(playerID)]: the [x] and [y] of the player
    with that id, if there is one. *)
Variable getPlayer : option string → option (number * number).

(** How a call ends. *)
Inductive completion : Type :=
| returned
| threw.

(** [initializeViewerPosition()]: the object after the call and how the
    call ended.  Reading [playerInfo] of a [null] client throws before
    anything is assigned; taking [x] and [y] out of an unknown player
    throws after [viewportFollow] has been assigned. *)
Definition initializeViewerPosition (this : t) : t * completion :=
  match gameClient this with
  | null => (this, threw)
  | value id =>
      let this := mk (renderer this) (gameClient this) (value id) in
      match getPlayer id with
      | None => (this, threw)
      | Some (x, y) =>
          (mk (MapRenderer.setViewerPosition (renderer this)
                 (x + half)%num (y + half)%num)
              (gameClient this) (viewportFollow this),
           returned)
      end
  end.

End WithGameState.

End Follow.

(** * Further vocabulary *)

(** What the methods of [Player] keep true of a player: a time of the
    last move comes with a position, a position comes with a previous
    position, and both are live objects. *)
Definition consistent (s : state) (p : Player.t) : Prop :=
  (is_Some (Player.lastMovingTime p) → is_Some (Player.mapCoord p)) ∧
  (is_Some (Player.mapCoord p) → is_Some (Player._previousMapCoord p)) ∧
  allocated s (Player.mapCoord p) ∧
  allocated s (Player._previousMapCoord p).

(** The facing that [getDrawInfo] hands to the renderer at time [now],
    when the call returns. *)
Definition drawn_facing (T : number) (this : Player.t) (now : number)
    (s : state) : option (option string) :=
  match Player.getDrawInfo T this now s with
  | Ok info _ => Some (Player.di_facing info)
  | TypeError => None
  end.

(** [b] is [a] after some more calls on the 2D context: nothing else has
    changed. *)
Definition drawn_onto (a b : MapRenderer.t) (cmds : list MapRenderer.command)
    : Prop :=
  b = MapRenderer.mk (MapRenderer.canvas a) (MapRenderer.mapSize a)
        (MapRenderer.players a) (MapRenderer.viewerPosition a)
        (MapRenderer.ctx a ++ cmds).

(** The sprite of a cell or of a player, one cell wide and high. *)
Definition sprite (info : MapRenderer.RenderInfo) (at_ : number * number)
    : MapRenderer.command :=
  MapRenderer.drawImage info (fst at_) (snd at_) mapCellSize mapCellSize.

(** The label of a player, above the middle of its cell. *)
Definition label (this : MapRenderer.t) (p : MapRenderer.Sprite)
    : MapRenderer.command :=
  MapRenderer.fillText (MapRenderer.displayName p)
    (fst (MapRenderer.mapToCanvasCoordinate this
            (MapRenderer.sx p + Follow.half)%num (MapRenderer.sy p)))
    (snd (MapRenderer.mapToCanvasCoordinate this
            (MapRenderer.sx p + Follow.half)%num (MapRenderer.sy p))).

(** The four settings between [save] and the labels. *)
Definition label_style : list MapRenderer.command :=
  [MapRenderer.save; MapRenderer.set_font fontStyle;
   MapRenderer.set_textAlign "center"; MapRenderer.set_textBaseline "bottom"].

(** * Properties *)

(** ** Reading the store *)

Lemma deref_allocated s l :
  allocated s (Some l) →
  ∃ c, store s !! l = Some c ∧ deref (Some l) s = Ok c s.
Proof.
  intros Hl. destruct (Hl l eq_refl) as [c Hc].
  exists c. split; [done|]. unfold deref. by rewrite Hc.
Qed.

Lemma equalsTo_allocated s a b :
  allocated s (Some a) → allocated s (Some b) →
  ∃ same, MapCoordClass.equalsTo a b s = Ok same s.
Proof.
  intros Ha Hb.
  destruct (deref_allocated s a Ha) as (ca & _ & Ea).
  destruct (deref_allocated s b Hb) as (cb & _ & Eb).
  unfold MapCoordClass.equalsTo, mbind, M_bind.
  rewrite Ea, Eb. eauto.
Qed.

(** ** [Player.updateFromMessage] *)

(** The four optional assignments that end [updateFromMessage]. *)
Ltac case_optional_fields msg :=
  destruct (PlayerSyncMessage.facing msg),
    (PlayerSyncMessage.displayName msg),
    (PlayerSyncMessage.displayChar msg),
    (PlayerSyncMessage.removed msg).

(** C3. A message for another player is refused: [updateFromMessage]
    returns [false] and the player and the store are as before.  A
    message whose [playerID] is the player's is applied and the result is
    [true]. *)
Theorem updateFromMessage_checks_playerID
    (this : Player.t) (msg : PlayerSyncMessage.t) (now : number) (s : state) :
  (PlayerSyncMessage.playerID msg ≠ Player.playerID this →
     Player.updateFromMessage this msg now s = Ok (false, this) s) ∧
  (PlayerSyncMessage.playerID msg = Player.playerID this →
     allocated s (PlayerSyncMessage.mapCoord msg) →
     allocated s (Player.mapCoord this) →
     ∃ this', Player.updateFromMessage this msg now s = Ok (true, this') s ∧
              Player.playerID this' = Player.playerID this).
Proof.
  split.
  - intros Hne. unfold Player.updateFromMessage.
    by rewrite bool_decide_eq_false_2.
  - intros Heq Hm Hc. unfold Player.updateFromMessage.
    rewrite bool_decide_eq_true_2 by done. simpl.
    destruct (PlayerSyncMessage.mapCoord msg) as [m|] eqn:Em.
    + destruct (Player.mapCoord this) as [c|] eqn:Ec.
      * destruct (equalsTo_allocated s m c) as [same Hsame]; [done..|].
        unfold mbind, M_bind. rewrite Hsame. simpl.
        eexists. split; [reflexivity|].
        destruct same, (PlayerSyncMessage.facing msg),
          (PlayerSyncMessage.displayName msg),
          (PlayerSyncMessage.displayChar msg),
          (PlayerSyncMessage.removed msg); done.
      * unfold mbind, M_bind. simpl.
        eexists. split; [reflexivity|].
        case_optional_fields msg; done.
    + unfold mbind, M_bind. simpl.
      eexists. split; [reflexivity|].
      case_optional_fields msg; done.
Qed.

(** C1, counterexample. On "p1" at [(5,5)], the message that repeats
    [(5,5)] still moves the previous position from [(4,5)] to [(5,5)]. *)
Lemma previous_follows_change_fails :
  ¬ previous_follows_change Sample.p1 Sample.msg_same Sample.now Sample.s0.
Proof.
  intros H.
  assert (Player.updateFromMessage Sample.p1 Sample.msg_same Sample.now
            Sample.s0
          = Ok (true,
                Player.set_removed (Some false)
                  (Player.set_mapCoord (Some 3%positive)
                     (Player.set_previousMapCoord (Some 1%positive)
                        Sample.p1)))
               Sample.s0) as Hrun by (vm_compute; reflexivity).
  destruct (H 1%positive 3%positive _ _ eq_refl eq_refl Hrun) as [H1 _].
  specialize (H1 eq_refl).
  unfold differs in H1. vm_compute in H1. discriminate H1.
Qed.

(** C1, amended. When the message is for this player and carries a
    position: if the player has a position, the previous position becomes
    that prior position whether or not the new one differs, and the time
    of the last move becomes [now] exactly when it differs; if the player
    has no position yet, the previous position is the new position.  In
    both cases the position becomes the one of the message. *)
Theorem updateFromMessage_previous_position
    (this : Player.t) (msg : PlayerSyncMessage.t) (now : number) (s : state)
    (m : loc) :
  PlayerSyncMessage.playerID msg = Player.playerID this →
  PlayerSyncMessage.mapCoord msg = Some m →
  allocated s (Some m) →
  allocated s (Player.mapCoord this) →
  ∃ this',
    Player.updateFromMessage this msg now s = Ok (true, this') s ∧
    Player.mapCoord this' = Some m ∧
    match Player.mapCoord this with
    | Some q =>
        Player._previousMapCoord this' = Some q ∧
        ((differs s m q ∧ Player.lastMovingTime this' = Some now) ∨
         (¬ differs s m q ∧
          Player.lastMovingTime this' = Player.lastMovingTime this))
    | None =>
        Player._previousMapCoord this' = Some m ∧
        Player.lastMovingTime this' = Player.lastMovingTime this
    end.
Proof.
  intros Heq Em Hm Hc. unfold Player.updateFromMessage.
  rewrite bool_decide_eq_true_2 by done. rewrite Em. simpl.
  destruct (Player.mapCoord this) as [q|] eqn:Eq.
  - destruct (equalsTo_allocated s m q) as [same Hsame]; [done..|].
    unfold mbind, M_bind, differs. rewrite Hsame. simpl.
    eexists. split; [reflexivity|].
    destruct same; simpl; rewrite ?Eq;
      case_optional_fields msg; simpl;
      (split; [done|]); (split; [done|]);
      first [ by left | right; split; [congruence | done] ].
  - unfold mbind, M_bind. simpl.
    eexists. split; [reflexivity|]. rewrite ?Eq.
    case_optional_fields msg; done.
Qed.

(** ** Serialization round trip *)

Lemma mkMapCoord_eta c : mkMapCoord (x c) (y c) = c.
Proof. by destruct c. Qed.

(** [MapCoord.fromObject] copies the coordinate to an unused location
    and leaves the rest of the state alone. *)
Lemma fromObject_copy s l c :
  store s !! l = Some c →
  ∃ l', MapCoordClass.fromObject (Some l) s
          = Ok l' (mkState (<[l' := c]> (store s)) (console s)) ∧
        store s !! l' = None.
Proof.
  intros Hl. exists (fresh (dom (store s))). split.
  - unfold MapCoordClass.fromObject, mbind, M_bind, deref, alloc.
    rewrite Hl. by rewrite mkMapCoord_eta.
  - apply not_elem_of_dom, is_fresh.
Qed.

(** C2, counterexample. A message for "p1" whose [removed] is
    [undefined] comes back with [removed] false; player "p1", who has
    left, comes back not marked as removed. *)
Lemma roundtrip_exact_fails :
  ¬ message_roundtrip_exact
      (PlayerSyncMessage.set_removed None Sample.msg_same) Sample.s0 ∧
  ¬ player_roundtrip_exact
      (Player.set_removed (Some true) Sample.p1) Sample.s0.
Proof.
  split.
  - intros (m' & s' & Hrun & _ & _ & _ & _ & _ & Hremoved & _).
    vm_compute in Hrun. injection Hrun as <- _.
    discriminate Hremoved.
  - intros (p' & s' & Hrun & _ & _ & _ & _ & _ & _ & _ & Hremoved).
    vm_compute in Hrun. injection Hrun as <- _.
    discriminate Hremoved.
Qed.

(** C2, amended. Through [toJSON] and [fromObject]:
    - a message keeps [playerID], the position, [facing], [displayName],
      [displayChar], [clientTime] and [updateSuccess], defined or not;
      [removed] is kept when defined, and an [undefined] [removed] comes
      back as [false] when the [playerID] is defined;
    - a player keeps the six properties of [ATTRIBUTES]; the previous
      position comes back equal to the position, and [removed] comes back
      [undefined]. *)
Theorem roundtrip_fields (s : state) :
  (∀ m : PlayerSyncMessage.t,
     allocated s (PlayerSyncMessage.mapCoord m) →
     ∃ m' s',
       PlayerSyncMessage.fromObject (PlayerSyncMessage.toJSON m) s
         = Ok m' s' ∧
       PlayerSyncMessage.playerID m' = PlayerSyncMessage.playerID m ∧
       coord s' (PlayerSyncMessage.mapCoord m')
         = coord s (PlayerSyncMessage.mapCoord m) ∧
       PlayerSyncMessage.facing m' = PlayerSyncMessage.facing m ∧
       PlayerSyncMessage.displayName m' = PlayerSyncMessage.displayName m ∧
       PlayerSyncMessage.displayChar m' = PlayerSyncMessage.displayChar m ∧
       PlayerSyncMessage.clientTime m' = PlayerSyncMessage.clientTime m ∧
       PlayerSyncMessage.updateSuccess m'
         = PlayerSyncMessage.updateSuccess m ∧
       PlayerSyncMessage.removed m'
         = (if PlayerSyncMessage.playerID m is Some _
            then Some (default false (PlayerSyncMessage.removed m))
            else PlayerSyncMessage.removed m)) ∧
  (∀ p : Player.t,
     allocated s (Player.mapCoord p) →
     ∃ p' s',
       Player.fromObject (Player.toJSON p) s = Ok p' s' ∧
       Player.playerID p' = Player.playerID p ∧
       Player.displayName p' = Player.displayName p ∧
       Player.displayChar p' = Player.displayChar p ∧
       coord s' (Player.mapCoord p') = coord s (Player.mapCoord p) ∧
       Player.facing p' = Player.facing p ∧
       Player.lastMovingTime p' = Player.lastMovingTime p ∧
       coord s' (Player._previousMapCoord p') = coord s (Player.mapCoord p) ∧
       Player.removed p' = None).
Proof.
  split.
  - intros [id mc fa dn dc rm ct us] Hmc. simpl in Hmc.
    unfold PlayerSyncMessage.fromObject, PlayerSyncMessage.toJSON,
      PlayerSyncMessage.constructor. simpl.
    destruct mc as [l|].
    + destruct (Hmc l eq_refl) as [c Hc].
      destruct (fromObject_copy s l c Hc) as (l' & Hcopy & Hfresh).
      assert (∀ line, MapCoordClass.fromObject (Some l)
                (mkState (store s) (console s ++ [line]))
              = Ok l' (mkState (<[l' := c]> (store s)) (console s ++ [line])))
        as Hcopy'.
      { intros line. unfold MapCoordClass.fromObject, mbind, M_bind, deref,
          alloc in *. simpl. rewrite Hc in *. simpl in *. congruence. }
      destruct id as [id|]; simpl; unfold mbind, M_bind; simpl.
      * rewrite Hcopy. simpl. do 2 eexists. split; [reflexivity|].
        destruct fa, dn, dc, rm, ct, us; simpl;
          rewrite ?lookup_insert_eq, ?Hc; done.
      * unfold console_error. simpl. rewrite Hcopy'. simpl.
        do 2 eexists. split; [reflexivity|].
        destruct fa, dn, dc, rm, ct, us; simpl;
          rewrite ?lookup_insert_eq, ?Hc; done.
    + destruct id as [id|]; simpl; unfold mbind, M_bind; simpl;
        do 2 eexists; (split; [reflexivity|]);
        destruct fa, dn, dc, rm, ct, us; done.
  - intros [id dn dc mc fa lt pm rm] Hmc. simpl in Hmc.
    unfold Player.fromObject, Player.toJSON, Player.constructor. simpl.
    destruct mc as [l|]; simpl.
    + destruct (Hmc l eq_refl) as [c Hc].
      destruct (fromObject_copy s l c Hc) as (l' & Hcopy & Hfresh).
      set (s1 := mkState (<[l' := c]> (store s)) (console s)).
      assert (store s1 !! l = Some c) as Hc1.
      { unfold s1. simpl. rewrite lookup_insert_ne; [done|]. congruence. }
      destruct (fromObject_copy s1 l c Hc1) as (l'' & Hcopy1 & Hfresh1).
      unfold mbind, M_bind. rewrite Hcopy. fold s1. rewrite Hcopy1. simpl.
      do 2 eexists. split; [reflexivity|]. simpl.
      rewrite lookup_insert_eq, Hc.
      rewrite lookup_insert_ne, lookup_insert_eq; [done|].
      intros ->. unfold s1 in Hfresh1. simpl in Hfresh1.
      by rewrite lookup_insert_eq in Hfresh1.
    + do 2 eexists. split; [reflexivity|]. done.
Qed.

(** ** [Player.getDrawInfo] *)

(** While the move lasts, [getDrawInfo] allocates one coordinate, the
    interpolated one, and writes nothing else. *)
Lemma getDrawInfo_moving T this now s p q cp cq :
  (now <? Num.of_option (Player.lastMovingTime this) + T)%num = true →
  Player._previousMapCoord this = Some p →
  Player.mapCoord this = Some q →
  store s !! p = Some cp →
  store s !! q = Some cq →
  ∃ inter f,
    store s !! inter = None ∧
    Player.getDrawInfo T this now s
    = Ok (Player.mkDrawInfo (Some inter) (Player.displayChar this) f
                            (Player.displayName this))
         (mkState
            (<[inter :=
                 lerp ((now - Num.of_option (Player.lastMovingTime this)) / T)
                      cp cq]> (store s))
            (console s)).
Proof.
  intros Hlt Hp Hq Hcp Hcq.
  destruct (fromObject_copy s q cq Hcq) as (inter & Hcopy & Hfresh).
  assert (inter ≠ p) as Hip by congruence.
  assert (inter ≠ q) as Hiq by congruence.
  exists inter. eexists. split; [done|].
  unfold Player.getDrawInfo. rewrite Hlt, Hp, Hq.
  unfold mbind, M_bind. rewrite Hcopy.
  unfold get_x, get_y, set_x, set_y, deref, mbind, M_bind, mret, M_ret.
  repeat (cbn [store console x y];
          first [ rewrite lookup_insert_eq
                | rewrite lookup_insert_ne by done
                | rewrite Hcp
                | rewrite Hcq ]).
  cbn [store console x y].
  rewrite !insert_insert_eq. reflexivity.
Qed.

(** [getDrawInfo] never writes to a coordinate that existed before the
    call, and logs nothing. *)
Lemma getDrawInfo_frame T this now s info s' :
  Player.getDrawInfo T this now s = Ok info s' →
  store s ⊆ store s' ∧ console s' = console s.
Proof.
  unfold Player.getDrawInfo.
  destruct (now <? _)%num.
  - destruct (Player.mapCoord this) as [q|] eqn:Hq; [|done].
    destruct (store s !! q) as [cq|] eqn:Hcq.
    + destruct (fromObject_copy s q cq Hcq) as (inter & Hcopy & Hfresh).
      unfold mbind, M_bind at 1 2. rewrite Hcopy.
      unfold get_x, get_y, set_x, set_y, deref, mbind, M_bind, mret, M_ret.
      intros Hrun.
      repeat (cbn [store console x y] in Hrun;
              first [ rewrite lookup_insert_eq in Hrun
                    | rewrite insert_insert_eq in Hrun
                    | match type of Hrun with
                      | context [match ?r with Some _ => _ | None => _ end] =>
                          destruct r; [|discriminate Hrun]
                      end ]).
      injection Hrun as _ <-. cbn [store console].
      split; [|done]. by apply insert_subseteq.
    + unfold mbind, M_bind at 1 2.
      unfold MapCoordClass.fromObject, mbind, M_bind, deref. by rewrite Hcq.
  - unfold mbind, M_bind, mret, M_ret. by intros [= _ <-].
Qed.

Lemma Qc_half_lt (T : Qc) : 0 < T → T / 2 < T.
Proof.
  intros HT.
  assert (T / 2 + 0 < T / 2 + T / 2) as H.
  { apply Qcplus_lt_mono_l.
    apply Qcmult_pos_pos; [done|]. by apply Qcinv_pos. }
  rewrite Qcplus_0_r in H.
  replace (T / 2 + T / 2) with T in H; [done|].
  field. done.
Qed.

(** C4. Let the player have moved at [t0] from [P] to [Q], and let the
    move interval [T] be positive.  The position that [getDrawInfo]
    returns is [P] at [t0], [Q] at [t0 + T] and the midpoint of [P] and
    [Q] at [t0 + T/2].  At any time [getDrawInfo] returns, and every
    coordinate object of the store is then as before, so the position of
    the player is still [Q]. *)
Theorem getDrawInfo_interpolates
    (T t0 Px Py Qx Qy : Qc) (this : Player.t) (s : state) (p q : loc) :
  0 < T →
  Player.lastMovingTime this = Some (Fin t0) →
  Player._previousMapCoord this = Some p →
  Player.mapCoord this = Some q →
  store s !! p = Some (mkMapCoord (Fin Px) (Fin Py)) →
  store s !! q = Some (mkMapCoord (Fin Qx) (Fin Qy)) →
  drawn_position (Fin T) this (Fin t0) s
    = Some (mkMapCoord (Fin Px) (Fin Py)) ∧
  drawn_position (Fin T) this (Fin (t0 + T)) s
    = Some (mkMapCoord (Fin Qx) (Fin Qy)) ∧
  drawn_position (Fin T) this (Fin (t0 + T / 2)) s
    = Some (mkMapCoord (Fin ((Px + Qx) / 2)) (Fin ((Py + Qy) / 2))) ∧
  (∀ now, ∃ info s',
     Player.getDrawInfo (Fin T) this now s = Ok info s' ∧
     coord s' (Player.mapCoord this) = Some (mkMapCoord (Fin Qx) (Fin Qy)) ∧
     store s ⊆ store s').
Proof.
  intros HT Ht0 Hp Hq Hcp Hcq.
  assert (T ≠ 0) as HT0 by (intros ->; by apply (Qclt_not_eq 0 0)).
  assert (t0 < t0 + T) as Hstart.
  { rewrite <- (Qcplus_0_r t0) at 1. by apply Qcplus_lt_mono_l. }
  assert (t0 + T / 2 < t0 + T) as Hhalf.
  { apply Qcplus_lt_mono_l. by apply Qc_half_lt. }
  assert ((Fin t0 <? Num.of_option (Player.lastMovingTime this) + Fin T)%num
          = true) as Hlt0.
  { rewrite Ht0. simpl. by apply bool_decide_eq_true_2. }
  assert ((Fin (t0 + T / 2)
             <? Num.of_option (Player.lastMovingTime this) + Fin T)%num
          = true) as Hlt1.
  { rewrite Ht0. simpl. by apply bool_decide_eq_true_2. }
  repeat split.
  - unfold drawn_position.
    destruct (getDrawInfo_moving _ _ _ _ _ _ _ _ Hlt0 Hp Hq Hcp Hcq)
      as (inter & f & _ & ->).
    rewrite Ht0. simpl. rewrite lookup_insert_eq.
    unfold lerp. simpl. rewrite decide_False by done. simpl.
    rewrite Z2Qc_inj_1. do 3 f_equal; field; done.
  - unfold drawn_position, Player.getDrawInfo. rewrite Ht0. simpl.
    rewrite bool_decide_eq_false_2
      by (intros Hirr; by apply Qclt_not_eq in Hirr).
    simpl. by rewrite Hq; simpl; rewrite Hcq.
  - unfold drawn_position.
    destruct (getDrawInfo_moving _ _ _ _ _ _ _ _ Hlt1 Hp Hq Hcp Hcq)
      as (inter & f & _ & ->).
    rewrite Ht0. simpl. rewrite lookup_insert_eq.
    unfold lerp. simpl. rewrite decide_False by done. simpl.
    rewrite Z2Qc_inj_1. do 3 f_equal; field; done.
  - intros now.
    assert (∃ info s', Player.getDrawInfo (Fin T) this now s = Ok info s')
      as (info & s' & Hrun).
    { destruct (now <? Num.of_option (Player.lastMovingTime this) + Fin T)%num
        eqn:Hlt.
      - destruct (getDrawInfo_moving _ _ _ _ _ _ _ _ Hlt Hp Hq Hcp Hcq)
          as (inter & f & _ & Hrun). eauto.
      - unfold Player.getDrawInfo. rewrite Hlt. eauto. }
    exists info, s'. split; [done|].
    apply getDrawInfo_frame in Hrun as [Hsub _]. split; [|done].
    rewrite Hq. simpl. by apply (lookup_weaken _ _ _ _ Hcq).
Qed.

(** C10. A player that never moved, whose [lastMovingTime] is
    [undefined], is drawn where it stands and facing as it faces,
    whatever the clock says: the end of the move is [NaN] and no time is
    before it. *)
Theorem getDrawInfo_never_moved
    (T : number) (this : Player.t) (now : number) (s : state) :
  Player.lastMovingTime this = None →
  Player.getDrawInfo T this now s
  = Ok (Player.mkDrawInfo (Player.mapCoord this) (Player.displayChar this)
                          (Player.facing this) (Player.displayName this))
       s.
Proof.
  intros Hnever. unfold Player.getDrawInfo. rewrite Hnever. simpl.
  by destruct now.
Qed.

(** ** [new PlayerSyncMessage] *)

(** C6. What the constructor does about a missing [playerID]: the call
    does not fail.  It writes one line with [console.error] and returns
    an object on which no property is set, not even [removed], whatever
    the other arguments were.  With a [playerID], nothing is logged and
    every property is set, [removed] being [false] by default. *)
Theorem constructor_without_playerID
    (mapCoord : option loc) (facing displayName displayChar : option string)
    (removed : option bool) (clientTime : option number)
    (updateSuccess : option bool) (s : state) :
  PlayerSyncMessage.constructor None mapCoord facing displayName displayChar
      removed clientTime updateSuccess s
  = Ok PlayerSyncMessage.blank
       (mkState (store s)
                (console s ++ [PlayerSyncMessage.should_not_be_undefined])) ∧
  ∀ playerID : string,
    PlayerSyncMessage.constructor (Some playerID) mapCoord facing displayName
        displayChar removed clientTime updateSuccess s
    = Ok (PlayerSyncMessage.mk (Some playerID) mapCoord facing displayName
            displayChar (Some (default false removed)) clientTime
            updateSuccess)
         s.
Proof. split; [reflexivity | intros playerID; reflexivity]. Qed.

(** ** [MapRenderer.draw] *)

Lemma drawn_onto_refl (a : MapRenderer.t) : drawn_onto a a [].
Proof. unfold drawn_onto. destruct a. simpl. by rewrite app_nil_r. Qed.

Lemma drawn_onto_call (a : MapRenderer.t) (c : MapRenderer.command) :
  drawn_onto a (MapRenderer.call c a) [c].
Proof. done. Qed.

Lemma drawn_onto_trans (a b c : MapRenderer.t) cmds1 cmds2 :
  drawn_onto a b cmds1 → drawn_onto b c cmds2 →
  drawn_onto a c (cmds1 ++ cmds2).
Proof.
  unfold drawn_onto. intros -> ->. simpl. by rewrite app_assoc.
Qed.

Lemma mapToCanvasCoordinate_drawn_onto (a b : MapRenderer.t) cmds x y :
  drawn_onto a b cmds →
  MapRenderer.mapToCanvasCoordinate b x y
  = MapRenderer.mapToCanvasCoordinate a x y.
Proof. by intros ->. Qed.

(** A loop whose every turn only draws, and draws commands that satisfy
    [G], only draws commands that satisfy [G], also when an exception
    ends it; and it returns when every turn does, which [P] ensures. *)
Lemma for_each_drawn_onto {A}
    (body : MapRenderer.t → A → MapRenderer.t * MapRenderer.result unit)
    (G : MapRenderer.command → Prop) (P : Prop) (base : MapRenderer.t)
    (l : list A) :
  (∀ this a pre,
     a ∈ l → drawn_onto base this pre →
     ∃ cmds, drawn_onto this (fst (body this a)) cmds ∧ Forall G cmds ∧
             (P → snd (body this a) = MapRenderer.returns ())) →
  ∀ this pre,
    drawn_onto base this pre →
    ∃ cmds,
      drawn_onto this (fst (MapRenderer.for_each body this l)) cmds ∧
      Forall G cmds ∧
      (P → snd (MapRenderer.for_each body this l) = MapRenderer.returns ()).
Proof.
  induction l as [|a l IH]; intros Hstep this pre Hpre;
    cbn [MapRenderer.for_each].
  - exists []. split; [apply drawn_onto_refl|]. split; [constructor | done].
  - destruct (Hstep this a pre) as (c1 & H1 & G1 & R1); [left | done |].
    destruct (body this a) as [this1 [[]|]]; cbn [fst snd] in *.
    + destruct (IH (λ this a pre Ha,
                      Hstep this a pre (list_elem_of_further _ _ _ Ha))
                   this1 (pre ++ c1)) as (c2 & H2 & G2 & R2).
      { by eapply drawn_onto_trans. }
      exists (c1 ++ c2). split; [by eapply drawn_onto_trans|].
      split; [by apply Forall_app | done].
    + exists c1. split; [done|]. split; [done|].
      intros HP. by specialize (R1 HP).
Qed.

(** A loop none of whose turns throws returns. *)
Lemma for_each_returns {A}
    (body : MapRenderer.t → A → MapRenderer.t * MapRenderer.result unit)
    (l : list A) :
  (∀ this a, snd (body this a) = MapRenderer.returns ()) →
  ∀ this, snd (MapRenderer.for_each body this l) = MapRenderer.returns ().
Proof.
  intros Hbody. induction l as [|a l IH]; intros this;
    cbn [MapRenderer.for_each]; [done|].
  specialize (Hbody this a).
  destruct (body this a) as [this1 [[]|]]; cbn [snd] in *; [apply IH | done].
Qed.

(** The two layers never report [false]. *)
Lemma drawGround_not_false getCellRenderInfo (this : MapRenderer.t) :
  snd (MapRenderer._drawGround getCellRenderInfo this)
  ≠ MapRenderer.returns false.
Proof.
  unfold MapRenderer._drawGround.
  by destruct (MapRenderer.for_each _ _ _) as [? [[]|]].
Qed.

Lemma drawPlayers_not_false getCharacter (this : MapRenderer.t) :
  snd (MapRenderer._drawPlayers getCharacter this)
  ≠ MapRenderer.returns false.
Proof.
  unfold MapRenderer._drawPlayers.
  by destruct (MapRenderer.for_each _ _ _) as [? [[]|]].
Qed.

(** With every asset in place, neither layer throws. *)
Lemma drawGround_returns getCellRenderInfo (this : MapRenderer.t) :
  (∀ mapX mapY, is_Some (getCellRenderInfo "ground" mapX mapY)) →
  snd (MapRenderer._drawGround getCellRenderInfo this)
  = MapRenderer.returns true.
Proof.
  intros Hall. unfold MapRenderer._drawGround.
  match goal with
  | |- context [MapRenderer.for_each ?body ?this0 ?rows] =>
      pose proof (for_each_returns body rows) as Hloop;
      destruct (MapRenderer.for_each body this0 rows) as [this1 r] eqn:Hrows
  end.
  assert (r = MapRenderer.returns ()) as ->; [|done].
  change r with (snd (this1, r)). rewrite <- Hrows. apply Hloop.
  intros row mapY. apply for_each_returns. intros cell mapX.
  case_bool_decide; [done|].
  by destruct (Hall mapX mapY) as [info ->].
Qed.

Lemma drawPlayers_returns getCharacter (this : MapRenderer.t) :
  (∀ displayChar facing, is_Some (getCharacter displayChar facing)) →
  snd (MapRenderer._drawPlayers getCharacter this)
  = MapRenderer.returns true.
Proof.
  intros Hall. unfold MapRenderer._drawPlayers.
  match goal with
  | |- context [MapRenderer.for_each ?body ?this0 ?l] =>
      pose proof (for_each_returns body l) as Hloop;
      destruct (MapRenderer.for_each body this0 l) as [this1 r] eqn:Hl
  end.
  assert (r = MapRenderer.returns ()) as ->; [|done].
  change r with (snd (this1, r)). rewrite <- Hl. apply Hloop.
  intros this' p. destruct (_ || _); [done|].
  by destruct (Hall (MapRenderer.displayChar p) (MapRenderer.facing p))
    as [info ->].
Qed.

(** [draw] is the ground layer and then, unless that throws, the player
    layer. *)
Lemma draw_unfold getCellRenderInfo getCharacter (this : MapRenderer.t) :
  MapRenderer.draw getCellRenderInfo getCharacter this
  = match snd (MapRenderer._drawGround getCellRenderInfo this) with
    | MapRenderer.throws =>
        (fst (MapRenderer._drawGround getCellRenderInfo this),
         MapRenderer.throws)
    | MapRenderer.returns _ =>
        MapRenderer._drawPlayers getCharacter
          (fst (MapRenderer._drawGround getCellRenderInfo this))
    end.
Proof.
  unfold MapRenderer.draw, MapRenderer.and_assign.
  pose proof (drawGround_not_false getCellRenderInfo this) as Hground.
  destruct (MapRenderer._drawGround getCellRenderInfo this)
    as [this1 [[|]|]]; cbn [fst snd] in *; [|done|done].
  by destruct (MapRenderer._drawPlayers getCharacter this1) as [this2 [ret|]].
Qed.

(** C5, counterexample. The map has no render info for the cell
    [(10, 5)]: the ground layer throws on that cell, the player layer
    does not run and [draw] returns no flag. *)
Lemma draws_every_layer_fails :
  ¬ draws_every_layer SampleRenderer.cell_10_5_missing
      SampleRenderer.every_character SampleRenderer.r0.
Proof.
  intros [ret H]. apply (f_equal snd) in H.
  vm_compute in H. discriminate H.
Qed.

(** C5, amended. A layer of [MapRenderer] never reports [false]: it
    returns [true] or it throws.  When the ground layer throws, the
    exception leaves [draw]: the player layer is not called and no flag
    is returned.  When the ground layer returns, the player layer is
    called next, and [draw] ends as that call ends.  With every asset in
    place no layer throws: both are called and [draw] returns [true]. *)
Theorem draw_ends_at_the_first_throw
    (getCellRenderInfo : string → Z → Z → option MapRenderer.RenderInfo)
    (getCharacter :
       option string → option string → option MapRenderer.RenderInfo)
    (this : MapRenderer.t) :
  snd (MapRenderer._drawGround getCellRenderInfo this)
    ≠ MapRenderer.returns false ∧
  snd (MapRenderer._drawPlayers getCharacter this)
    ≠ MapRenderer.returns false ∧
  (snd (MapRenderer._drawGround getCellRenderInfo this) = MapRenderer.throws →
     MapRenderer.draw getCellRenderInfo getCharacter this
     = (fst (MapRenderer._drawGround getCellRenderInfo this),
        MapRenderer.throws)) ∧
  (snd (MapRenderer._drawGround getCellRenderInfo this)
     = MapRenderer.returns true →
     MapRenderer.draw getCellRenderInfo getCharacter this
     = MapRenderer._drawPlayers getCharacter
         (fst (MapRenderer._drawGround getCellRenderInfo this))) ∧
  ((∀ mapX mapY, is_Some (getCellRenderInfo "ground" mapX mapY)) →
   (∀ displayChar facing, is_Some (getCharacter displayChar facing)) →
     MapRenderer.draw getCellRenderInfo getCharacter this
     = (fst (MapRenderer._drawPlayers getCharacter
               (fst (MapRenderer._drawGround getCellRenderInfo this))),
        MapRenderer.returns true)).
Proof.
  split; [apply drawGround_not_false|].
  split; [apply drawPlayers_not_false|].
  rewrite draw_unfold. split; [by intros ->|]. split; [by intros ->|].
  intros Hcells Hchars. rewrite (drawGround_returns _ _ Hcells).
  rewrite (surjective_pairing (MapRenderer._drawPlayers _ _)) at 1.
  by rewrite (drawPlayers_returns _ _ Hchars).
Qed.

(** ** The viewport *)

Lemma Qc_of_Z_neq_0 (z : Z) : z ≠ 0%Z → Qc_of_Z z ≠ 0.
Proof. intros Hz. rewrite <- Z2Qc_inj_0. by intros ?%Z2Qc_inj. Qed.

Lemma div_of_Z (a : Qc) (z : Z) :
  z ≠ 0%Z → (Fin a / Num.of_Z z)%num = Fin (a / Qc_of_Z z).
Proof.
  intros Hz. unfold Num.div, Num.of_Z.
  by rewrite decide_False by by apply Qc_of_Z_neq_0.
Qed.

(** [Math.min(Math.max(v, lo), hi)] on finite numbers. *)
Lemma clamp_inside (v lo hi : Qc) :
  lo ≤ v → v ≤ hi → Num.min (Num.max (Fin v) (Fin lo)) (Fin hi) = Fin v.
Proof.
  intros Hlo Hhi. unfold Num.max.
  rewrite decide_False by by apply Qcle_not_lt.
  unfold Num.min. by rewrite decide_False by by apply Qcle_not_lt.
Qed.

Lemma clamp_range (v lo hi : Qc) :
  lo ≤ hi →
  ∃ v', Num.min (Num.max (Fin v) (Fin lo)) (Fin hi) = Fin v' ∧ lo ≤ v' ≤ hi.
Proof.
  intros Hrange. unfold Num.max.
  destruct (decide (v < lo)) as [Hv|Hv]; unfold Num.min.
  - rewrite decide_False by by apply Qcle_not_lt.
    exists lo. by repeat split.
  - apply Qcnot_lt_le in Hv.
    destruct (decide (hi < v)) as [Hv'|Hv'].
    + exists hi. by repeat split.
    + apply Qcnot_lt_le in Hv'. exists v. by repeat split.
Qed.

Lemma setViewerPosition_unfold (this : MapRenderer.t) (x y : Qc) :
  MapRenderer.viewerPosition
    (MapRenderer.setViewerPosition this (Fin x) (Fin y))
  = (Num.min (Num.max (Fin x) (Fin (minX this))) (Fin (maxX this)),
     Num.min (Num.max (Fin y) (Fin (minY this))) (Fin (maxY this))).
Proof.
  unfold MapRenderer.setViewerPosition, mapCellSize, minX, maxX, minY, maxY.
  cbn [MapRenderer.viewerPosition MapRenderer.set_viewerPosition].
  change (Num.of_Z (MapRenderer.width (MapRenderer.canvas this)))
    with (Fin (Qc_of_Z (MapRenderer.width (MapRenderer.canvas this)))).
  change (Num.of_Z (MapRenderer.height (MapRenderer.canvas this)))
    with (Fin (Qc_of_Z (MapRenderer.height (MapRenderer.canvas this)))).
  by rewrite !div_of_Z by done.
Qed.

(** C8, counterexample. On the map of 100 by 100 cells the request
    [(NaN, 200)] is outside the range, neither range is empty, and the
    position that is stored is [(NaN, 92.5)]: [Math.max] and [Math.min]
    hand the [NaN] on, so the stored position is not inside. *)
Lemma clamps_request_fails :
  ¬ clamps_request SampleRenderer.r0 NaN (Num.of_Z 200).
Proof.
  intros [_ H]. apply H.
  - intros [].
  - vm_compute. discriminate.
  - vm_compute. discriminate.
Qed.

(** C8, amended. For a request [(x, y)] of finite numbers: if it lies
    inside [[minX, maxX] × [minY, maxY]], [setViewerPosition] stores it
    unchanged; if it lies outside and neither range is empty, the stored
    position is inside. *)
Theorem setViewerPosition_clamps (this : MapRenderer.t) (x y : Qc) :
  (inside this x y →
     MapRenderer.viewerPosition
       (MapRenderer.setViewerPosition this (Fin x) (Fin y))
     = (Fin x, Fin y)) ∧
  (¬ inside this x y →
     minX this ≤ maxX this → minY this ≤ maxY this →
     ∃ x' y',
       MapRenderer.viewerPosition
         (MapRenderer.setViewerPosition this (Fin x) (Fin y))
       = (Fin x', Fin y') ∧
       inside this x' y').
Proof.
  rewrite setViewerPosition_unfold. split.
  - intros [[Hx1 Hx2] [Hy1 Hy2]]. by rewrite !clamp_inside.
  - intros _ HX HY.
    destruct (clamp_range x _ _ HX) as (x' & -> & Hx').
    destruct (clamp_range y _ _ HY) as (y' & -> & Hy').
    by exists x', y'.
Qed.

Lemma Qc_floor_le (q : Qc) : Qc_of_Z (Qfloor q) ≤ q.
Proof. unfold Qcle. simpl. apply Qfloor_le. Qed.

Lemma Qc_lt_floor (q : Qc) : q < Qc_of_Z (Qfloor q) + 1.
Proof.
  rewrite <- Z2Qc_inj_1, <- Z2Qc_inj_add.
  unfold Qclt. simpl. apply Qlt_floor.
Qed.

Lemma back_and_forth (w v p : Qc) :
  w / Qc_of_Z 2 + (v + (p - w / Qc_of_Z 2) / Qc_of_Z 32 - v) * Qc_of_Z 32 = p.
Proof.
  assert (Qc_of_Z 2 ≠ 0) by by apply Qc_of_Z_neq_0.
  assert (Qc_of_Z 32 ≠ 0) by by apply Qc_of_Z_neq_0.
  field. done.
Qed.

(** Back and forth through the two conversions, a canvas coordinate is
    floored and nothing else. *)
Lemma canvas_map_canvas (this : MapRenderer.t) (vx vy px py : Qc) :
  MapRenderer.viewerPosition this = (Fin vx, Fin vy) →
  MapRenderer.mapToCanvasCoordinate this
    (fst (MapRenderer.canvasToMapCoordinate this (Fin px) (Fin py)))
    (snd (MapRenderer.canvasToMapCoordinate this (Fin px) (Fin py)))
  = (Num.of_Z (Qfloor px), Num.of_Z (Qfloor py)).
Proof.
  intros Hv.
  unfold MapRenderer.mapToCanvasCoordinate, MapRenderer.canvasToMapCoordinate,
    mapCellSize.
  rewrite Hv. cbn [fst snd].
  change (Num.of_Z (MapRenderer.width (MapRenderer.canvas this)))
    with (Fin (Qc_of_Z (MapRenderer.width (MapRenderer.canvas this)))).
  change (Num.of_Z (MapRenderer.height (MapRenderer.canvas this)))
    with (Fin (Qc_of_Z (MapRenderer.height (MapRenderer.canvas this)))).
  rewrite !div_of_Z by done. cbn [Num.sub Num.add Num.mul Num.lift2].
  rewrite !div_of_Z by done. cbn [Num.sub Num.add Num.mul Num.lift2].
  unfold Num.of_Z at 1 2. cbn [Num.sub Num.add Num.mul Num.lift2 Num.floor].
  by rewrite !back_and_forth.
Qed.

(** C9. Once the viewer position is set, a point [(px, py)] of the
    canvas that is converted to map coordinates and back lands at most
    one pixel away in each direction. *)
Theorem canvas_map_canvas_within_one_pixel
    (this : MapRenderer.t) (vx vy px py : Qc) :
  MapRenderer.viewerPosition this = (Fin vx, Fin vy) →
  0 ≤ px ≤ Qc_of_Z (MapRenderer.width (MapRenderer.canvas this)) →
  0 ≤ py ≤ Qc_of_Z (MapRenderer.height (MapRenderer.canvas this)) →
  ∃ qx qy : Z,
    MapRenderer.mapToCanvasCoordinate this
      (fst (MapRenderer.canvasToMapCoordinate this (Fin px) (Fin py)))
      (snd (MapRenderer.canvasToMapCoordinate this (Fin px) (Fin py)))
    = (Num.of_Z qx, Num.of_Z qy) ∧
    px - 1 ≤ Qc_of_Z qx ≤ px + 1 ∧
    py - 1 ≤ Qc_of_Z qy ≤ py + 1.
Proof.
  intros Hv _ _. exists (Qfloor px), (Qfloor py).
  split; [by apply canvas_map_canvas with vx vy|].
  assert (∀ q : Qc, q - 1 ≤ Qc_of_Z (Qfloor q) ≤ q + 1) as Hfloor.
  { intros q. split.
    - apply Qclt_le_weak, (Qcplus_lt_mono_r _ _ 1).
      replace (q - 1 + 1) with q by ring. apply Qc_lt_floor.
    - trans q; [apply Qc_floor_le|].
      rewrite <- (Qcplus_0_r q) at 1. by apply Qcplus_le_mono_l. }
  split; apply Hfloor.
Qed.

(** ** Customized layers *)




(** ** The theorems at work on the sample values *)

Lemma allocated_lookup s l c : store s !! l = Some c → allocated s (Some l).
Proof. intros Hl l' [= <-]. by exists c. Qed.

(** C3 on the samples: "p1" refuses the message for "p2" and takes the one
    that moves it to [(6,5)]. *)
Lemma updateFromMessage_checks_playerID_witness :
  Player.updateFromMessage Sample.p1 Sample.msg_other Sample.now Sample.s0
  = Ok (false, Sample.p1) Sample.s0 ∧
  ∃ this',
    Player.updateFromMessage Sample.p1 Sample.msg_move Sample.now Sample.s0
    = Ok (true, this') Sample.s0 ∧
    Player.playerID this' = Some "p1".
Proof.
  split.
  - apply (proj1 (updateFromMessage_checks_playerID
                    Sample.p1 Sample.msg_other Sample.now Sample.s0)).
    vm_compute. discriminate.
  - apply (proj2 (updateFromMessage_checks_playerID
                    Sample.p1 Sample.msg_move Sample.now Sample.s0)).
    + reflexivity.
    + apply (allocated_lookup _ _ (Sample.at_ 6 5)). reflexivity.
    + apply (allocated_lookup _ _ (Sample.at_ 5 5)). reflexivity.
Defined.

(** C1 on the samples: the message that repeats the position of "p1". *)
Lemma updateFromMessage_previous_position_witness :
  ∃ this',
    Player.updateFromMessage Sample.p1 Sample.msg_same Sample.now Sample.s0
    = Ok (true, this') Sample.s0 ∧
    Player.mapCoord this' = Some 3%positive ∧
    Player._previousMapCoord this' = Some 1%positive.
Proof.
  destruct (updateFromMessage_previous_position
              Sample.p1 Sample.msg_same Sample.now Sample.s0 3%positive)
    as (this' & Hrun & Hpos & Hprev & _).
  - reflexivity.
  - reflexivity.
  - apply (allocated_lookup _ _ (Sample.at_ 5 5)). reflexivity.
  - apply (allocated_lookup _ _ (Sample.at_ 5 5)). reflexivity.
  - exists this'. repeat split; assumption.
Defined.

(** C2 on the samples: the message that moves "p1" to [(6,5)]. *)
Lemma roundtrip_fields_witness :
  ∃ m' s',
    PlayerSyncMessage.fromObject (PlayerSyncMessage.toJSON Sample.msg_move)
      Sample.s0 = Ok m' s' ∧
    coord s' (PlayerSyncMessage.mapCoord m') = Some (Sample.at_ 6 5) ∧
    PlayerSyncMessage.removed m' = Some false.
Proof.
  destruct (proj1 (roundtrip_fields Sample.s0) Sample.msg_move)
    as (m' & s' & Hrun & _ & Hpos & _ & _ & _ & _ & _ & Hremoved).
  - apply (allocated_lookup _ _ (Sample.at_ 6 5)). reflexivity.
  - exists m', s'. repeat split; assumption.
Defined.

(** C4 on the samples: "p1" moved from [(4,5)] to [(5,5)] at 1000 ms, with
    a move interval of 300 ms. *)
Lemma getDrawInfo_interpolates_witness :
  drawn_position (Num.of_Z 300) Sample.p1 Sample.t0 Sample.s0
  = Some (Sample.at_ 4 5) ∧
  drawn_position (Num.of_Z 300) Sample.p1
    (Fin (Qc_of_Z 1000 + Qc_of_Z 300)) Sample.s0
  = Some (Sample.at_ 5 5) ∧
  drawn_position (Num.of_Z 300) Sample.p1
    (Fin (Qc_of_Z 1000 + Qc_of_Z 300 / 2)) Sample.s0
  = Some (mkMapCoord (Fin ((Qc_of_Z 4 + Qc_of_Z 5) / 2))
                     (Fin ((Qc_of_Z 5 + Qc_of_Z 5) / 2))).
Proof.
  destruct (getDrawInfo_interpolates
              (Qc_of_Z 300) (Qc_of_Z 1000) (Qc_of_Z 4) (Qc_of_Z 5)
              (Qc_of_Z 5) (Qc_of_Z 5) Sample.p1 Sample.s0
              2%positive 1%positive)
    as (Hstart & Hend & Hhalf & _).
  - reflexivity.
  - reflexivity.
  - reflexivity.
  - reflexivity.
  - reflexivity.
  - reflexivity.
  - repeat split; assumption.
Defined.

(** C10 on the samples: "p1" before it has a position. *)
Lemma getDrawInfo_never_moved_witness :
  Player.getDrawInfo (Num.of_Z 300) Sample.p1_new Sample.now Sample.s0
  = Ok (Player.mkDrawInfo None (Some "char1") (Some "D") (Some "p1"))
       Sample.s0.
Proof.
  apply (getDrawInfo_never_moved (Num.of_Z 300) Sample.p1_new Sample.now
                                 Sample.s0).
  reflexivity.
Defined.

(** C8 on the samples: [(50, 50)] is inside the bounds of the 100 by 100
    map, [(200, -3)] is not. *)
Lemma setViewerPosition_clamps_witness :
  MapRenderer.viewerPosition
    (MapRenderer.setViewerPosition SampleRenderer.r0
       (Num.of_Z 50) (Num.of_Z 50))
  = (Num.of_Z 50, Num.of_Z 50) ∧
  ∃ x' y',
    MapRenderer.viewerPosition
      (MapRenderer.setViewerPosition SampleRenderer.r0
         (Num.of_Z 200) (Num.of_Z (-3)))
    = (Fin x', Fin y') ∧
    inside SampleRenderer.r0 x' y'.
Proof.
  split.
  - apply (proj1 (setViewerPosition_clamps SampleRenderer.r0
                    (Qc_of_Z 50) (Qc_of_Z 50))).
    vm_compute. repeat split; discriminate.
  - apply (proj2 (setViewerPosition_clamps SampleRenderer.r0
                    (Qc_of_Z 200) (Qc_of_Z (-3)))).
    + vm_compute. intros [[_ H] _]. apply H. reflexivity.
    + vm_compute. discriminate.
    + vm_compute. discriminate.
Defined.

(** C9 on the samples: the pixel [(100, 37)]. *)
Lemma canvas_map_canvas_within_one_pixel_witness :
  ∃ qx qy : Z,
    MapRenderer.mapToCanvasCoordinate SampleRenderer.r0
      (fst (MapRenderer.canvasToMapCoordinate SampleRenderer.r0
              (Num.of_Z 100) (Num.of_Z 37)))
      (snd (MapRenderer.canvasToMapCoordinate SampleRenderer.r0
              (Num.of_Z 100) (Num.of_Z 37)))
    = (Num.of_Z qx, Num.of_Z qy) ∧
    Qc_of_Z 100 - 1 ≤ Qc_of_Z qx ≤ Qc_of_Z 100 + 1 ∧
    Qc_of_Z 37 - 1 ≤ Qc_of_Z qy ≤ Qc_of_Z 37 + 1.
Proof.
  apply (canvas_map_canvas_within_one_pixel SampleRenderer.r0
           (Qc_of_Z 21 / Qc_of_Z 2) (Qc_of_Z 21 / Qc_of_Z 2)
           (Qc_of_Z 100) (Qc_of_Z 37)).
  - vm_compute. reflexivity.
  - vm_compute. split; discriminate.
  - vm_compute. split; discriminate.
Defined.

(** C5 on the samples: on the map without the cell [(10, 5)] the ground
    layer throws and so does [draw]; on the map with every asset [draw]
    returns [true]. *)
Lemma draw_ends_at_the_first_throw_witness :
  MapRenderer.draw SampleRenderer.cell_10_5_missing
    SampleRenderer.every_character SampleRenderer.r0
  = (fst (MapRenderer._drawGround SampleRenderer.cell_10_5_missing
            SampleRenderer.r0),
     MapRenderer.throws) ∧
  snd (MapRenderer.draw SampleRenderer.every_cell
         SampleRenderer.every_character SampleRenderer.r0)
  = MapRenderer.returns true ∧
  MapRenderer.draw SampleRenderer.every_cell
    SampleRenderer.every_character SampleRenderer.r0
  = MapRenderer._drawPlayers SampleRenderer.every_character
      (fst (MapRenderer._drawGround SampleRenderer.every_cell
              SampleRenderer.r0)).
Proof.
  split; [|split].
  - apply (proj1 (proj2 (proj2 (draw_ends_at_the_first_throw
                                  SampleRenderer.cell_10_5_missing
                                  SampleRenderer.every_character
                                  SampleRenderer.r0)))).
    vm_compute. reflexivity.
  - rewrite (proj2 (proj2 (proj2 (proj2 (draw_ends_at_the_first_throw
                                           SampleRenderer.every_cell
                                           SampleRenderer.every_character
                                           SampleRenderer.r0))))).
    + reflexivity.
    + intros mapX mapY. by eexists.
    + intros displayChar facing. by eexists.
  - apply (proj1 (proj2 (proj2 (proj2 (draw_ends_at_the_first_throw
                                         SampleRenderer.every_cell
                                         SampleRenderer.every_character
                                         SampleRenderer.r0))))).
    vm_compute. reflexivity.
Defined.

(** The scenario of the specification: "p1" on [(5,5)] takes the message
    that moves it to [(6,5)] at 5000 ms; half a move interval later it is
    drawn on [(5.5, 5)]. *)
Example move_then_half_way :
  ∃ this',
    Player.updateFromMessage Sample.p1 Sample.msg_move Sample.now Sample.s0
    = Ok (true, this') Sample.s0 ∧
    coord Sample.s0 (Player._previousMapCoord this') = Some (Sample.at_ 5 5) ∧
    coord Sample.s0 (Player.mapCoord this') = Some (Sample.at_ 6 5) ∧
    Player.lastMovingTime this' = Some Sample.now ∧
    drawn_position (Num.of_Z 300) this' (Num.of_Z 5150) Sample.s0
    = Some (mkMapCoord (Fin (Qc_of_Z 11 / Qc_of_Z 2)) (Num.of_Z 5)).
Proof.
  eexists. split; [vm_compute; reflexivity|].
  repeat split.
  vm_compute. do 2 f_equal; f_equal; apply Qc_is_canon; reflexivity.
Qed.

(** Player "p1", who came from [(4,5)] and has left, through [toJSON] and
    [fromObject]: the previous position is now [(5,5)] and [removed] is
    [undefined]. *)
Example player_roundtrip_sample :
  ∃ p' s',
    Player.fromObject
      (Player.toJSON (Player.set_removed (Some true) Sample.p1)) Sample.s0
    = Ok p' s' ∧
    coord s' (Player._previousMapCoord p') = Some (Sample.at_ 5 5) ∧
    Player.removed p' = None.
Proof. do 2 eexists. split; [vm_compute; reflexivity|]. by vm_compute. Qed.

(** A request that is not a number is stored as it is. *)
Example setViewerPosition_NaN :
  MapRenderer.viewerPosition
    (MapRenderer.setViewerPosition SampleRenderer.r0 NaN (Num.of_Z 50))
  = (NaN, Num.of_Z 50).
Proof. by vm_compute. Qed.

(** * Further properties *)

(** ** More on [Player.updateFromMessage] *)

Lemma equalsTo_frame a b s same s' :
  MapCoordClass.equalsTo a b s = Ok same s' → s' = s.
Proof.
  unfold MapCoordClass.equalsTo, mbind, M_bind, deref, mret, M_ret.
  destruct (store s !! a); [|done].
  destruct (store s !! b); [|done].
  by intros [= _ <-].
Qed.

(** X1. An applied message is merged property by property: [facing],
    [displayName], [displayChar] and [removed] take the value of the
    message when it has one and keep their own otherwise, the [playerID]
    stays, and neither the coordinate objects nor the console are
    touched. *)
Theorem updateFromMessage_merges
    (this : Player.t) (msg : PlayerSyncMessage.t) (now : number)
    (s s' : state) (this' : Player.t) :
  Player.updateFromMessage this msg now s = Ok (true, this') s' →
  s' = s ∧
  Player.playerID this' = Player.playerID this ∧
  Player.facing this'
    = (if PlayerSyncMessage.facing msg is Some _
       then PlayerSyncMessage.facing msg else Player.facing this) ∧
  Player.displayName this'
    = (if PlayerSyncMessage.displayName msg is Some _
       then PlayerSyncMessage.displayName msg else Player.displayName this) ∧
  Player.displayChar this'
    = (if PlayerSyncMessage.displayChar msg is Some _
       then PlayerSyncMessage.displayChar msg else Player.displayChar this) ∧
  Player.removed this'
    = (if PlayerSyncMessage.removed msg is Some _
       then PlayerSyncMessage.removed msg else Player.removed this).
Proof.
  unfold Player.updateFromMessage.
  destruct (negb _); [done|].
  destruct (PlayerSyncMessage.mapCoord msg) as [m|].
  - destruct (Player.mapCoord this) as [c|] eqn:Ec.
    + unfold mbind, M_bind.
      destruct (MapCoordClass.equalsTo m c s) as [same s1|] eqn:Esame;
        [|done].
      apply equalsTo_frame in Esame as ->. simpl.
      intros [= <- <-]. rewrite ?Ec.
      destruct same; case_optional_fields msg; done.
    + unfold mbind, M_bind, mret, M_ret. simpl.
      intros [= <- <-]. case_optional_fields msg; done.
  - unfold mbind, M_bind, mret, M_ret. simpl.
    intros [= <- <-]. case_optional_fields msg; done.
Qed.

(** X2. A message for this player that carries no position is always
    applied, whatever the store holds, and leaves the position, the
    previous position and the time of the last move as they were. *)
Theorem updateFromMessage_without_position
    (this : Player.t) (msg : PlayerSyncMessage.t) (now : number) (s : state) :
  PlayerSyncMessage.playerID msg = Player.playerID this →
  PlayerSyncMessage.mapCoord msg = None →
  ∃ this',
    Player.updateFromMessage this msg now s = Ok (true, this') s ∧
    Player.mapCoord this' = Player.mapCoord this ∧
    Player._previousMapCoord this' = Player._previousMapCoord this ∧
    Player.lastMovingTime this' = Player.lastMovingTime this.
Proof.
  intros Hid Hpos. unfold Player.updateFromMessage.
  rewrite bool_decide_eq_true_2 by done. rewrite Hpos.
  unfold mbind, M_bind, mret, M_ret. simpl.
  eexists. split; [reflexivity|].
  case_optional_fields msg; done.
Qed.

(** X3. A new player is consistent, and [updateFromMessage] keeps a
    consistent player consistent: the call returns, does not touch the
    state, and afterwards a time of the last move still comes with a
    position and a position with a previous position, both live. *)
Theorem updateFromMessage_keeps_consistent
    (this : Player.t) (msg : PlayerSyncMessage.t) (now : number) (s : state) :
  (∀ playerID, consistent s (Player.constructor playerID)) ∧
  (consistent s this →
   allocated s (PlayerSyncMessage.mapCoord msg) →
   ∃ applied this',
     Player.updateFromMessage this msg now s = Ok (applied, this') s ∧
     consistent s this').
Proof.
  split.
  - intros playerID. unfold consistent, Player.constructor. simpl.
    repeat split; intros ? ; by try intros [? [=]].
  - intros (Htime & Hprev & Hcur & Hold) Hmsg.
    unfold Player.updateFromMessage.
    destruct (negb _).
    { do 2 eexists. split; [reflexivity|]. done. }
    destruct (PlayerSyncMessage.mapCoord msg) as [m|] eqn:Em.
    + destruct (Player.mapCoord this) as [c|] eqn:Ec.
      * destruct (equalsTo_allocated s m c) as [same Hsame]; [done..|].
        unfold mbind, M_bind. rewrite Hsame. simpl.
        do 2 eexists. split; [reflexivity|].
        unfold consistent.
        destruct same; case_optional_fields msg; simpl; rewrite ?Ec;
          repeat split; eauto.
      * unfold mbind, M_bind, mret, M_ret. simpl.
        do 2 eexists. split; [reflexivity|].
        unfold consistent.
        case_optional_fields msg; simpl; rewrite ?Ec;
          repeat split; eauto.
    + unfold mbind, M_bind, mret, M_ret. simpl.
      do 2 eexists. split; [reflexivity|].
      unfold consistent.
      case_optional_fields msg; simpl; repeat split; eauto.
Qed.

(** ** More on [Player.getDrawInfo] *)

(** Comparisons and operations of [Qc] read in [Q]. *)
Ltac qc2q :=
  unfold Qcle, Qclt, Qcdiv, Qcminus, Qcplus, Qcmult, Qcinv, Qcopp in *;
  cbn [this Q2Qc] in *;
  rewrite ?Qred_correct in *.

Lemma Qfloor_Qc_div (n m : Z) :
  Qfloor (this (Qc_of_Z n / Qc_of_Z m)%Qc) = (n `div` m)%Z.
Proof.
  rewrite Zdiv_Qdiv. apply Qfloor_comp.
  unfold Qcdiv, Qcmult, Qcinv. cbn [this Q2Qc Qc_of_Z].
  by rewrite !Qred_correct.
Qed.

Lemma floor_div_of_Z (n m : Z) :
  m ≠ 0%Z → Num.floor (Num.of_Z n / Num.of_Z m)%num = Num.of_Z (n `div` m).
Proof.
  intros Hm. unfold Num.of_Z at 1. rewrite div_of_Z by done.
  unfold Num.floor. by rewrite Qfloor_Qc_div.
Qed.

Lemma rem_of_Z (k m : Z) :
  (0 ≤ k)%Z → (0 < m)%Z →
  (Num.of_Z k %% Num.of_Z m)%num = Num.of_Z (k `mod` m).
Proof.
  intros Hk Hm. unfold Num.rem, Num.of_Z.
  rewrite decide_False by (apply Qc_of_Z_neq_0; lia).
  f_equal. unfold Num.trunc.
  rewrite decide_True.
  - rewrite Qfloor_Qc_div, <- Z2Qc_inj_mul, <- Z2Qc_inj_sub.
    f_equal. rewrite Z.mod_eq; lia.
  - pose proof (Qc_floor_le (Qc_of_Z k / Qc_of_Z m)) as Hfloor.
    rewrite Qfloor_Qc_div in Hfloor.
    trans (Qc_of_Z (k `div` m)); [|done].
    rewrite <- Z2Qc_inj_0.
    apply (proj1 (Z2Qc_inj_le _ _)). by apply Z.div_pos.
Qed.

Lemma strict_eq_of_Z (a b : Z) :
  (Num.of_Z a === Num.of_Z b)%num = bool_decide (a = b).
Proof.
  unfold Num.strict_eq, Num.of_Z. apply bool_decide_ext, Z2Qc_inj_iff.
Qed.

(** The moving branch of [getDrawInfo] once more, with the facing. *)
Lemma getDrawInfo_moving_facing T this now s p q cp cq :
  (now <? Num.of_option (Player.lastMovingTime this) + T)%num = true →
  Player._previousMapCoord this = Some p →
  Player.mapCoord this = Some q →
  store s !! p = Some cp →
  store s !! q = Some cq →
  ∃ inter s',
    Player.getDrawInfo T this now s
    = Ok (Player.mkDrawInfo (Some inter) (Player.displayChar this)
            (let phase :=
               (Num.floor (now / PLAYER_MOVE_ANIMATION_FRAME_RATE)
                %% Num.of_Z 4)%num in
             if (phase === Num.of_Z 0)%num
             then Some (concat (Player.facing this) "R")
             else if (phase === Num.of_Z 2)%num
                  then Some (concat (Player.facing this) "L")
                  else Player.facing this)
            (Player.displayName this))
         s'.
Proof.
  intros Hlt Hp Hq Hcp Hcq.
  destruct (fromObject_copy s q cq Hcq) as (inter & Hcopy & Hfresh).
  assert (inter ≠ p) as Hip by congruence.
  assert (inter ≠ q) as Hiq by congruence.
  exists inter. eexists.
  unfold Player.getDrawInfo. rewrite Hlt, Hp, Hq.
  unfold mbind, M_bind. rewrite Hcopy.
  unfold get_x, get_y, set_x, set_y, deref, mbind, M_bind, mret, M_ret.
  repeat (cbn [store console x y];
          first [ rewrite lookup_insert_eq
                | rewrite lookup_insert_ne by done
                | rewrite Hcp
                | rewrite Hcq ]).
  reflexivity.
Qed.

(** X4. On a consistent player [getDrawInfo] returns at every time, for
    every move interval: it does not throw. *)
Theorem getDrawInfo_returns
    (T : number) (this : Player.t) (now : number) (s : state) :
  consistent s this →
  ∃ info s', Player.getDrawInfo T this now s = Ok info s'.
Proof.
  intros (Htime & Hprev & Hcur & Hold).
  destruct (now <? Num.of_option (Player.lastMovingTime this) + T)%num
    eqn:Hlt.
  - assert (is_Some (Player.lastMovingTime this)) as Hmoved.
    { destruct (Player.lastMovingTime this); [done|].
      by destruct now. }
    destruct (Htime Hmoved) as [q Hq].
    destruct (Hprev (mk_is_Some _ _ Hq)) as [p Hp].
    destruct (Hcur q Hq) as [cq Hcq].
    destruct (Hold p Hp) as [cp Hcp].
    destruct (getDrawInfo_moving _ _ _ _ _ _ _ _ Hlt Hp Hq Hcp Hcq)
      as (inter & f & _ & Hrun). eauto.
  - unfold Player.getDrawInfo. rewrite Hlt. eauto.
Qed.

(** X6. While the move lasts, at a whole number [n] of milliseconds that
    is not negative, the drawn facing goes through four frames of 100 ms:
    the facing followed by [R] in frame 0, the facing itself in frames 1
    and 3, the facing followed by [L] in frame 2. *)
Theorem getDrawInfo_walk_cycle
    (T : number) (this : Player.t) (n : Z) (s : state) (p q : loc)
    (cp cq : MapCoord) :
  (0 ≤ n)%Z →
  (Num.of_Z n <? Num.of_option (Player.lastMovingTime this) + T)%num = true →
  Player._previousMapCoord this = Some p →
  Player.mapCoord this = Some q →
  store s !! p = Some cp →
  store s !! q = Some cq →
  drawn_facing T this (Num.of_Z n) s
  = Some (if decide ((n `div` 100) `mod` 4 = 0)%Z
          then Some (concat (Player.facing this) "R")
          else if decide ((n `div` 100) `mod` 4 = 2)%Z
               then Some (concat (Player.facing this) "L")
               else Player.facing this).
Proof.
  intros Hn Hlt Hp Hq Hcp Hcq. unfold drawn_facing.
  destruct (getDrawInfo_moving_facing _ _ _ _ _ _ _ _ Hlt Hp Hq Hcp Hcq)
    as (inter & s' & ->).
  cbn [Player.di_facing]. unfold PLAYER_MOVE_ANIMATION_FRAME_RATE.
  rewrite floor_div_of_Z by done.
  rewrite rem_of_Z by (try apply Z.div_pos; lia).
  rewrite !strict_eq_of_Z. cbv zeta.
  repeat case_bool_decide; repeat case_decide; done.
Qed.

(** X7. Once the move interval has passed, at [t0 + T] and at every
    later time, [getDrawInfo] returns the position object of the player
    itself and its facing, and changes nothing; this does not depend on
    the player having a position. *)
Theorem getDrawInfo_at_rest
    (T t0 now : Qc) (this : Player.t) (s : state) :
  Player.lastMovingTime this = Some (Fin t0) →
  t0 + T ≤ now →
  Player.getDrawInfo (Fin T) this (Fin now) s
  = Ok (Player.mkDrawInfo (Player.mapCoord this) (Player.displayChar this)
                          (Player.facing this) (Player.displayName this))
       s.
Proof.
  intros Ht0 Hlate. unfold Player.getDrawInfo. rewrite Ht0. simpl.
  by rewrite bool_decide_eq_false_2 by by apply Qcle_not_lt.
Qed.

(** X8. While the move lasts, [getDrawInfo] throws on a player without
    a position, and on a player with a position but without a previous
    position. *)
Theorem getDrawInfo_throws
    (T : number) (this : Player.t) (now : number) (s : state) :
  (now <? Num.of_option (Player.lastMovingTime this) + T)%num = true →
  (Player.mapCoord this = None →
     Player.getDrawInfo T this now s = TypeError) ∧
  (Player._previousMapCoord this = None →
     Player.getDrawInfo T this now s = TypeError).
Proof.
  intros Hlt. unfold Player.getDrawInfo. rewrite Hlt. split.
  - by intros ->.
  - intros ->.
    unfold mbind, M_bind, MapCoordClass.fromObject, mbind, M_bind, deref,
      alloc.
    destruct (Player.mapCoord this) as [q|]; [|done].
    by destruct (store s !! q).
Qed.

(** ** How the methods of [Player] compose *)

(** X10. A message built by the constructor with a [playerID] comes
    back from [toJSON] and [fromObject] with every property as it was:
    the constructor has defined [removed] already. *)
Theorem constructed_message_roundtrip
    (playerID : string) (mapCoord : option loc)
    (facing displayName displayChar : option string)
    (removed : option bool) (clientTime : option number)
    (updateSuccess : option bool) (s : state) :
  allocated s mapCoord →
  ∃ m,
    PlayerSyncMessage.constructor (Some playerID) mapCoord facing
      displayName displayChar removed clientTime updateSuccess s = Ok m s ∧
    message_roundtrip_exact m s.
Proof.
  intros Hmc. eexists. split; [reflexivity|].
  unfold message_roundtrip_exact, PlayerSyncMessage.fromObject,
    PlayerSyncMessage.toJSON, PlayerSyncMessage.constructor. simpl.
  destruct mapCoord as [l|]; simpl; unfold mbind, M_bind; simpl.
  - destruct (Hmc l eq_refl) as [c Hc].
    destruct (fromObject_copy s l c Hc) as (l' & -> & Hfresh). simpl.
    do 2 eexists. split; [reflexivity|].
    destruct facing, displayName, displayChar, removed, clientTime,
      updateSuccess; simpl; rewrite ?lookup_insert_eq, ?Hc; done.
  - do 2 eexists. split; [reflexivity|].
    destruct facing, displayName, displayChar, removed, clientTime,
      updateSuccess; done.
Qed.

(** X11. [Player.fromObject] shares no coordinate with the object it
    reads: when the object has a position, the position and the previous
    position of the new player are two new, distinct objects that hold
    the coordinate read, and every object of the store is as before; when
    it has none, the player has neither and nothing is allocated. *)
Theorem Player_fromObject_allocates (obj : Obj.t) (s : state) :
  (∀ l c,
     get (Obj.mapCoord obj) = Some l → store s !! l = Some c →
     ∃ p' s' l1 l2,
       Player.fromObject obj s = Ok p' s' ∧
       Player.mapCoord p' = Some l1 ∧
       Player._previousMapCoord p' = Some l2 ∧
       l1 ≠ l2 ∧
       store s !! l1 = None ∧ store s !! l2 = None ∧
       store s' !! l1 = Some c ∧ store s' !! l2 = Some c ∧
       store s ⊆ store s' ∧ console s' = console s) ∧
  (get (Obj.mapCoord obj) = None →
   ∃ p',
     Player.fromObject obj s = Ok p' s ∧
     Player.mapCoord p' = None ∧ Player._previousMapCoord p' = None).
Proof.
  split.
  - intros l c Hl Hc. unfold Player.fromObject. rewrite Hl.
    destruct (fromObject_copy s l c Hc) as (l1 & Hcopy & Hfresh).
    set (s1 := mkState (<[l1 := c]> (store s)) (console s)).
    assert (l1 ≠ l) as Hne by congruence.
    assert (store s1 !! l = Some c) as Hc1.
    { unfold s1. simpl. by rewrite lookup_insert_ne. }
    destruct (fromObject_copy s1 l c Hc1) as (l2 & Hcopy1 & Hfresh1).
    assert (l1 ≠ l2) as Hne12.
    { intros <-. unfold s1 in Hfresh1. simpl in Hfresh1.
      by rewrite lookup_insert_eq in Hfresh1. }
    unfold s1 in Hfresh1. simpl in Hfresh1.
    rewrite lookup_insert_ne in Hfresh1 by done.
    unfold mbind, M_bind. rewrite Hcopy. fold s1. rewrite Hcopy1. simpl.
    eexists _, _, l1, l2.
    split; [reflexivity|]. simpl.
    repeat split; try done.
    + by rewrite lookup_insert_ne, lookup_insert_eq.
    + by rewrite lookup_insert_eq.
    + trans (<[l1 := c]> (store s)); apply insert_subseteq; [done|].
      by rewrite lookup_insert_ne.
  - intros Hnone. unfold Player.fromObject. rewrite Hnone.
    eexists. split; [reflexivity|]. simpl.
    unfold Player.assignIfDefined.
    destruct (Obj.mapCoord obj) as [|v]; simpl in *; by subst.
Qed.

(** X12. [PlayerSyncMessage.fromObject] on an object without
    [playerID] writes the error line once and still returns a message:
    it has no [playerID], every other property is the one of the object
    ([removed] is not defaulted), and no player that has a [playerID]
    accepts it. *)
Theorem message_without_playerID (obj : Obj.t) (s : state) :
  get (Obj.playerID obj) = None →
  allocated s (get (Obj.mapCoord obj)) →
  ∃ m s',
    PlayerSyncMessage.fromObject obj s = Ok m s' ∧
    console s' = console s ++ [PlayerSyncMessage.should_not_be_undefined] ∧
    PlayerSyncMessage.playerID m = None ∧
    coord s' (PlayerSyncMessage.mapCoord m) = coord s (get (Obj.mapCoord obj)) ∧
    PlayerSyncMessage.facing m = get (Obj.facing obj) ∧
    PlayerSyncMessage.displayName m = get (Obj.displayName obj) ∧
    PlayerSyncMessage.displayChar m = get (Obj.displayChar obj) ∧
    PlayerSyncMessage.removed m = get (Obj.removed obj) ∧
    PlayerSyncMessage.clientTime m = get (Obj.clientTime obj) ∧
    PlayerSyncMessage.updateSuccess m = get (Obj.updateSuccess obj) ∧
    ∀ (this : Player.t) (now : number),
      is_Some (Player.playerID this) →
      Player.updateFromMessage this m now s' = Ok (false, this) s'.
Proof.
  intros Hid Hmc.
  assert (∀ (m : PlayerSyncMessage.t) (this : Player.t) now s',
            PlayerSyncMessage.playerID m = None →
            is_Some (Player.playerID this) →
            Player.updateFromMessage this m now s' = Ok (false, this) s')
    as Hrefused.
  { intros m this now s' Hm [id Hthis]. unfold Player.updateFromMessage.
    rewrite bool_decide_eq_false_2; [done|]. congruence. }
  unfold PlayerSyncMessage.fromObject, PlayerSyncMessage.constructor.
  rewrite Hid. unfold mbind, M_bind, console_error, mret, M_ret.
  cbn [PlayerSyncMessage.blank].
  set (s1 := mkState (store s)
               (console s ++ [PlayerSyncMessage.should_not_be_undefined])).
  destruct (get (Obj.mapCoord obj)) as [l|] eqn:Hl.
  - destruct (Hmc l eq_refl) as [c Hc].
    destruct (fromObject_copy s1 l c Hc) as (l' & -> & Hfresh).
    do 2 eexists. split; [reflexivity|].
    destruct (get (Obj.facing obj)), (get (Obj.displayName obj)),
      (get (Obj.displayChar obj)), (get (Obj.removed obj)),
      (get (Obj.clientTime obj)), (get (Obj.updateSuccess obj));
      simpl; rewrite ?lookup_insert_eq, ?Hc;
      repeat split; try done; intros; by apply Hrefused.
  - do 2 eexists. split; [reflexivity|].
    destruct (get (Obj.facing obj)), (get (Obj.displayName obj)),
      (get (Obj.displayChar obj)), (get (Obj.removed obj)),
      (get (Obj.clientTime obj)), (get (Obj.updateSuccess obj));
      simpl; repeat split; try done; intros; by apply Hrefused.
Qed.

(** X13. The keys of two players with different ids differ; the key in
    Redis and the key in the data store are the same; a player without
    id gets the key of the player called "undefined". *)
Theorem getRedisKey_injective :
  (∀ a b : string,
     Player.getRedisKey (Some a) = Player.getRedisKey (Some b) → a = b) ∧
  (∀ playerID, Player.getDataStoreKey playerID = Player.getRedisKey playerID) ∧
  Player.getRedisKey None = Player.getRedisKey (Some "undefined").
Proof.
  repeat split.
  intros a b. unfold Player.getRedisKey. simpl.
  apply (String.app_inj "p-").
Qed.

(** ** More on the viewport *)

Lemma clamp_idempotent (v lo hi : number) :
  Num.min (Num.max (Num.min (Num.max v lo) hi) lo) hi
  = Num.min (Num.max v lo) hi.
Proof.
  destruct v as [|v], lo as [|lo], hi as [|hi]; try done;
    cbv beta iota delta [Num.max Num.min];
    repeat (case_decide; cbv beta iota); try done;
    exfalso; qc2q; lra.
Qed.

(** X14. [setViewerPosition] is idempotent: storing the position it has
    just stored changes nothing, whatever was requested, also when the
    request is [NaN] or the map is smaller than the canvas. *)
Theorem setViewerPosition_idempotent (this : MapRenderer.t) (x y : number) :
  MapRenderer.setViewerPosition
    (MapRenderer.setViewerPosition this x y)
    (fst (MapRenderer.viewerPosition
            (MapRenderer.setViewerPosition this x y)))
    (snd (MapRenderer.viewerPosition
            (MapRenderer.setViewerPosition this x y)))
  = MapRenderer.setViewerPosition this x y.
Proof.
  unfold MapRenderer.setViewerPosition, MapRenderer.set_viewerPosition.
  cbn [MapRenderer.viewerPosition MapRenderer.canvas MapRenderer.mapSize
       MapRenderer.players MapRenderer.ctx fst snd].
  by rewrite !clamp_idempotent.
Qed.

Lemma clamp_degenerate (v lo hi : Qc) :
  hi < lo → Num.min (Num.max (Fin v) (Fin lo)) (Fin hi) = Fin hi.
Proof.
  intros Hrange. cbv beta iota delta [Num.max Num.min].
  repeat (case_decide; cbv beta iota); try done;
    exfalso; qc2q; lra.
Qed.

Lemma narrow_map (canvasSize mapSize : Z) :
  (32 * mapSize < canvasSize)%Z →
  Qc_of_Z mapSize - Qc_of_Z canvasSize / Qc_of_Z 2 / Qc_of_Z 32
  < Qc_of_Z canvasSize / Qc_of_Z 2 / Qc_of_Z 32.
Proof.
  intros Hnarrow%Z2Qc_inj_lt. rewrite Z2Qc_inj_mul in Hnarrow.
  qc2q. cbn [this Qc_of_Z] in *.
  change (/ inject_Z 2)%Q with (1 # 2)%Q.
  change (/ inject_Z 32)%Q with (1 # 32)%Q.
  change (inject_Z 32) with (32 # 1)%Q in Hnarrow.
  lra.
Qed.

(** X15. On a map narrower than the canvas (fewer than
    [canvas.width / 32] cells wide) the stored [x] does not depend on the
    request: it is [maxX], which is then left of [minX].  The same holds
    for [y] on a map lower than the canvas. *)
Theorem setViewerPosition_narrow_map (this : MapRenderer.t) (x y : Qc) :
  ((32 * MapRenderer.width (MapRenderer.mapSize this)
    < MapRenderer.width (MapRenderer.canvas this))%Z →
   fst (MapRenderer.viewerPosition
          (MapRenderer.setViewerPosition this (Fin x) (Fin y)))
   = Fin (maxX this) ∧
   maxX this < minX this) ∧
  ((32 * MapRenderer.height (MapRenderer.mapSize this)
    < MapRenderer.height (MapRenderer.canvas this))%Z →
   snd (MapRenderer.viewerPosition
          (MapRenderer.setViewerPosition this (Fin x) (Fin y)))
   = Fin (maxY this) ∧
   maxY this < minY this).
Proof.
  rewrite setViewerPosition_unfold. cbn [fst snd].
  split; intros Hnarrow%narrow_map; (split; [|done]);
    by apply clamp_degenerate.
Qed.

(** X18. The viewer position is the map coordinate of the centre of the
    canvas, before and after it has been set. *)
Theorem canvas_centre_is_viewer (this : MapRenderer.t) :
  MapRenderer.canvasToMapCoordinate this
    (Num.of_Z (MapRenderer.width (MapRenderer.canvas this)) / Num.of_Z 2)%num
    (Num.of_Z (MapRenderer.height (MapRenderer.canvas this)) / Num.of_Z 2)%num
  = MapRenderer.viewerPosition this.
Proof.
  unfold MapRenderer.canvasToMapCoordinate, mapCellSize.
  destruct (MapRenderer.viewerPosition this) as [vx vy]. cbn [fst snd].
  change (Num.of_Z (MapRenderer.width (MapRenderer.canvas this)))
    with (Fin (Qc_of_Z (MapRenderer.width (MapRenderer.canvas this)))).
  change (Num.of_Z (MapRenderer.height (MapRenderer.canvas this)))
    with (Fin (Qc_of_Z (MapRenderer.height (MapRenderer.canvas this)))).
  rewrite !div_of_Z by done.
  assert (∀ (v : number) (c : Qc),
            (v + (Fin c - Fin c) / Num.of_Z 32)%num = v) as Hcentre.
  { intros [|v] c; [done|]. cbn [Num.sub Num.lift2].
    rewrite div_of_Z by done. cbn [Num.add Num.lift2].
    f_equal. field. by apply Qc_of_Z_neq_0. }
  by rewrite !Hcentre.
Qed.

(** ** What the layers draw *)

(** X19. [_drawGround] draws cells of the map only and draws them in
    place: each of its calls is a [drawImage] of the ground of a cell
    [(mapX, mapY)] with [0 <= mapX < width] and [0 <= mapY < height], at
    the canvas coordinate of that cell, 32 by 32 pixels.  It changes
    nothing but the context, also when it throws; and it returns [true]
    when the map has a render info for each of its cells. *)
Theorem drawGround_draws_cells_of_the_map
    (getCellRenderInfo : string → Z → Z → option MapRenderer.RenderInfo)
    (this : MapRenderer.t) :
  ∃ cmds,
    drawn_onto this (fst (MapRenderer._drawGround getCellRenderInfo this))
               cmds ∧
    Forall (λ c, ∃ (mapX mapY : Z) info,
              (0 ≤ mapX < MapRenderer.width (MapRenderer.mapSize this))%Z ∧
              (0 ≤ mapY < MapRenderer.height (MapRenderer.mapSize this))%Z ∧
              getCellRenderInfo "ground" mapX mapY = Some info ∧
              c = sprite info
                    (MapRenderer.mapToCanvasCoordinate this
                       (Num.of_Z mapX) (Num.of_Z mapY)))
           cmds ∧
    ((∀ mapX mapY,
        (0 ≤ mapX < MapRenderer.width (MapRenderer.mapSize this))%Z →
        (0 ≤ mapY < MapRenderer.height (MapRenderer.mapSize this))%Z →
        is_Some (getCellRenderInfo "ground" mapX mapY)) →
     snd (MapRenderer._drawGround getCellRenderInfo this)
     = MapRenderer.returns true).
Proof.
  set (G := λ c, ∃ (mapX mapY : Z) info,
              (0 ≤ mapX < MapRenderer.width (MapRenderer.mapSize this))%Z ∧
              (0 ≤ mapY < MapRenderer.height (MapRenderer.mapSize this))%Z ∧
              getCellRenderInfo "ground" mapX mapY = Some info ∧
              c = sprite info
                    (MapRenderer.mapToCanvasCoordinate this
                       (Num.of_Z mapX) (Num.of_Z mapY))).
  set (P := ∀ mapX mapY,
        (0 ≤ mapX < MapRenderer.width (MapRenderer.mapSize this))%Z →
        (0 ≤ mapY < MapRenderer.height (MapRenderer.mapSize this))%Z →
        is_Some (getCellRenderInfo "ground" mapX mapY)).
  unfold MapRenderer._drawGround.
  match goal with
  | |- context [MapRenderer.for_each ?body this ?rows] =>
      destruct (for_each_drawn_onto body G P this rows)
        with (this := this) (pre := @nil MapRenderer.command)
        as (cmds & Hdrawn & Hcells & Hret);
      [| apply drawn_onto_refl |
       destruct (MapRenderer.for_each body this rows) as [this1 [[]|]] ]
  end.
  - intros row mapY pre _ Hrow.
    eapply for_each_drawn_onto; [|exact Hrow].
    intros cell mapX pre' _ Hcell.
    assert (MapRenderer.mapSize cell = MapRenderer.mapSize this) as ->
      by (by rewrite Hcell).
    rewrite (mapToCanvasCoordinate_drawn_onto _ _ _ _ _ Hcell).
    case_bool_decide as Hout.
    + exists []. split; [apply drawn_onto_refl|]. by split; [constructor|].
    + destruct (getCellRenderInfo "ground" mapX mapY) as [info|] eqn:Hinfo.
      * eexists. split; [apply drawn_onto_call|]. split; [|done].
        constructor; [|constructor].
        exists mapX, mapY, info. split; [lia|]. split; [lia|]. done.
      * exists []. split; [apply drawn_onto_refl|]. split; [constructor|].
        intros Hall. destruct (Hall mapX mapY) as [info Hsome]; [lia | lia |].
        congruence.
  - exists cmds. by cbn [fst snd] in *.
  - exists cmds. cbn [fst snd] in *. split; [done|]. split; [done|].
    intros Hall. by specialize (Hret Hall).
Qed.

Lemma foldl_labels (base : MapRenderer.t) (l : list MapRenderer.Sprite) :
  ∀ this pre,
    drawn_onto base this pre →
    drawn_onto this
      (foldl (λ this p,
                MapRenderer.call
                  (MapRenderer.fillText (MapRenderer.displayName p)
                     (fst (MapRenderer.mapToCanvasCoordinate this
                             (MapRenderer.sx p + Fin (Qc_of_Z 1 / Qc_of_Z 2))%num
                             (MapRenderer.sy p)))
                     (snd (MapRenderer.mapToCanvasCoordinate this
                             (MapRenderer.sx p + Fin (Qc_of_Z 1 / Qc_of_Z 2))%num
                             (MapRenderer.sy p))))
                  this)
         this l)
      (label base <$> l).
Proof.
  induction l as [|p l IH]; intros this pre Hpre; cbn [foldl fmap list_fmap].
  - apply drawn_onto_refl.
  - rewrite (mapToCanvasCoordinate_drawn_onto _ _ _ _ _ Hpre).
    apply (drawn_onto_trans _ (MapRenderer.call (label base p) this) _
             [label base p]).
    + apply drawn_onto_call.
    + apply (IH _ (pre ++ [label base p])).
      eapply drawn_onto_trans; [exact Hpre|]. apply drawn_onto_call.
Qed.

Lemma drawn_onto_label_style (a : MapRenderer.t) :
  drawn_onto a
    (MapRenderer.call (MapRenderer.set_textBaseline "bottom")
       (MapRenderer.call (MapRenderer.set_textAlign "center")
          (MapRenderer.call (MapRenderer.set_font fontStyle)
             (MapRenderer.call MapRenderer.save a))))
    label_style.
Proof.
  unfold drawn_onto, MapRenderer.call, label_style. simpl.
  by rewrite <- !app_assoc.
Qed.


Lemma for_each_unchanged {A} (this : MapRenderer.t) (l : list A) :
  MapRenderer.for_each (λ this _, (this, MapRenderer.returns ())) this l
  = (this, MapRenderer.returns ()).
Proof. by induction l. Qed.

(** X20. As long as a coordinate of the viewer position is [NaN], as it
    is from the constructor until the position is set, [_drawGround]
    draws nothing and still returns [true]; it does not ask the map for
    a render info, so it cannot throw. *)
Theorem drawGround_before_the_viewer_is_set
    (getCellRenderInfo : string → Z → Z → option MapRenderer.RenderInfo)
    (this : MapRenderer.t) :
  fst (MapRenderer.viewerPosition this) = NaN ∨
  snd (MapRenderer.viewerPosition this) = NaN →
  MapRenderer._drawGround getCellRenderInfo this
  = (this, MapRenderer.returns true).
Proof.
  unfold MapRenderer._drawGround, MapRenderer.canvasToMapCoordinate.
  cbn [fst snd].
  intros [-> | ->];
    cbn [Num.add Num.lift2 Num.floor MapRenderer.range MapRenderer.for_each].
  - by rewrite for_each_unchanged.
  - done.
Qed.

Lemma mapToCanvasCoordinate_NaN (this : MapRenderer.t) (x y : number) :
  MapRenderer.viewerPosition this = (NaN, NaN) →
  MapRenderer.mapToCanvasCoordinate this x y = (NaN, NaN).
Proof.
  intros Hv. unfold MapRenderer.mapToCanvasCoordinate. rewrite Hv.
  cbn [fst snd]. by destruct x, y, (_ / _)%num, (_ / _)%num.
Qed.

(** A loop whose every turn makes one call makes these calls, in order,
    and returns. *)
Lemma for_each_calls {A}
    (body : MapRenderer.t → A → MapRenderer.t * MapRenderer.result unit)
    (f : A → MapRenderer.command) (base : MapRenderer.t) (l : list A) :
  (∀ this a pre,
     a ∈ l → drawn_onto base this pre →
     body this a = (MapRenderer.call (f a) this, MapRenderer.returns ())) →
  ∀ this pre,
    drawn_onto base this pre →
    snd (MapRenderer.for_each body this l) = MapRenderer.returns () ∧
    drawn_onto this (fst (MapRenderer.for_each body this l)) (f <$> l).
Proof.
  induction l as [|a l IH]; intros Hstep this pre Hpre;
    cbn [MapRenderer.for_each fmap list_fmap].
  - split; [done | apply drawn_onto_refl].
  - rewrite (Hstep this a pre) by (done || left).
    destruct (IH (λ this a pre Ha,
                    Hstep this a pre (list_elem_of_further _ _ _ Ha))
                 (MapRenderer.call (f a) this) (pre ++ [f a]))
      as [Hret Hdrawn].
    { eapply drawn_onto_trans; [exact Hpre | apply drawn_onto_call]. }
    split; [done|].
    by apply (drawn_onto_trans _ (MapRenderer.call (f a) this) _ [f a]).
Qed.

(** X22. As long as both coordinates of the viewer position are [NaN],
    [_drawPlayers] draws every player: the test that skips the players
    outside the canvas lets [NaN] through, so the sprite of every player
    whose character the sheet has, and then every label, is drawn at
    [(NaN, NaN)]. *)
Theorem drawPlayers_before_the_viewer_is_set
    (getCharacter :
       option string → option string → option MapRenderer.RenderInfo)
    (character : MapRenderer.Sprite → MapRenderer.RenderInfo)
    (this : MapRenderer.t) :
  MapRenderer.viewerPosition this = (NaN, NaN) →
  (∀ p, p ∈ MapRenderer.players this →
        getCharacter (MapRenderer.displayChar p) (MapRenderer.facing p)
        = Some (character p)) →
  snd (MapRenderer._drawPlayers getCharacter this)
    = MapRenderer.returns true ∧
  drawn_onto this (fst (MapRenderer._drawPlayers getCharacter this))
    (((λ p, sprite (character p) (NaN, NaN)) <$> MapRenderer.players this)
     ++ label_style
     ++ ((λ p, MapRenderer.fillText (MapRenderer.displayName p) NaN NaN)
           <$> MapRenderer.players this)
     ++ [MapRenderer.restore]).
Proof.
  intros Hv Hchars. unfold MapRenderer._drawPlayers.
  match goal with
  | |- context [MapRenderer.for_each ?body this (MapRenderer.players this)] =>
      destruct (for_each_calls body
                  (λ p, sprite (character p) (NaN, NaN))
                  this (MapRenderer.players this))
        with (this := this) (pre := @nil MapRenderer.command)
        as [Hret Hsprites];
      [| apply drawn_onto_refl |
       destruct (MapRenderer.for_each body this (MapRenderer.players this))
         as [this1 r] ]
  end.
  - intros this' p pre Hp Hpre.
    rewrite (mapToCanvasCoordinate_drawn_onto _ _ _ _ _ Hpre).
    rewrite (mapToCanvasCoordinate_NaN this _ _ Hv). cbn [fst snd].
    cbn [Num.ltb Num.geb orb]. by rewrite (Hchars p Hp).
  - cbn [fst snd] in *. subst r. cbn [fst snd]. split; [done|].
    eapply drawn_onto_trans; [exact Hsprites|].
    assert (MapRenderer.players
              (MapRenderer.call (MapRenderer.set_textBaseline "bottom")
                 (MapRenderer.call (MapRenderer.set_textAlign "center")
                    (MapRenderer.call (MapRenderer.set_font fontStyle)
                       (MapRenderer.call MapRenderer.save this1))))
            = MapRenderer.players this) as ->
      by (by rewrite Hsprites).
    eapply drawn_onto_trans; [apply drawn_onto_label_style|].
    eapply drawn_onto_trans; [|apply drawn_onto_call].
    replace ((λ p, MapRenderer.fillText (MapRenderer.displayName p) NaN NaN)
               <$> MapRenderer.players this)
      with (label this <$> MapRenderer.players this).
    + eapply foldl_labels.
      eapply drawn_onto_trans; [exact Hsprites|apply drawn_onto_label_style].
    + apply list_fmap_ext. intros _ p _. unfold label.
      by rewrite (mapToCanvasCoordinate_NaN this _ _ Hv).
Qed.

(** ** Loading the guideposts *)

Lemma first_failed_load (loads : string → bool)
    (guideposts : list Client.Guidepost) :
  Exists (λ g, loads (Client.src g) = false) guideposts →
  ∃ g rest,
    g ∈ guideposts ∧ loads (Client.src g) = false ∧
    filter (λ g, loads (Client.src g) = false) (Client.attach <$> guideposts)
    = Client.attach g :: rest.
Proof.
  induction guideposts as [|g gs IH]; intros Hfail.
  - by apply Exists_nil in Hfail.
  - rewrite fmap_cons. destruct (loads (Client.src g)) eqn:Hg.
    + apply Exists_cons in Hfail as [Hfail|Hfail]; [congruence|].
      destruct (IH Hfail) as (g' & rest & Hin & Hg' & Hfilter).
      exists g', rest. split; [by right|]. split; [done|].
      rewrite filter_cons_False; [done|]. simpl. by rewrite Hg.
    + exists g. eexists. split; [by left|]. split; [done|].
      by rewrite filter_cons_True.
Qed.

(** When every image loads, [gameStart] registers the guideposts, with
    their images, as the layer "guidepost" at [zIndex] -10, and logs
    nothing. *)
Lemma gameStart_all_loaded loads watermark guideposts registry s :
  Forall (λ g, loads (Client.src g) = true) guideposts →
  Client.gameStart loads watermark guideposts registry s
  = Ok (LayerRegistry.registerCustomizedLayerToDraw
          Client.LAYER_GUIDEPOST_zIndex Client.LAYER_GUIDEPOST_layerName
          watermark (Client.attach <$> guideposts) registry) s.
Proof.
  intros Hall. unfold Client.gameStart.
  replace (filter _ (Client.attach <$> guideposts))
    with (@nil Client.Guidepost); [done|].
  symmetry. induction Hall as [|g gs Hg _ IH]; [done|].
  rewrite fmap_cons, filter_cons_False; [done|].
  simpl. by rewrite Hg.
Qed.

(** X23. When the image of a guidepost does not load, [gameStart]
    registers nothing: the registry is as before, the store is as before,
    and one line that names the [src] of a guidepost whose image failed
    is written with [console.error]. *)
Theorem gameStart_failed_load
    (loads : string → bool)
    (watermark : list Client.Guidepost → MapRenderer.t → MapRenderer.t * bool)
    (guideposts : list Client.Guidepost)
    (registry : list LayerRegistry.Layer) (s : state) :
  Exists (λ g, loads (Client.src g) = false) guideposts →
  ∃ g,
    g ∈ guideposts ∧ loads (Client.src g) = false ∧
    Client.gameStart loads watermark guideposts registry s
    = Ok registry
         (mkState (store s)
                  (console s ++ ["error on loading " +:+ Client.src g])).
Proof.
  intros Hfail.
  destruct (first_failed_load loads guideposts Hfail)
    as (g & rest & Hin & Hg & Hfilter).
  exists g. split; [done|]. split; [done|].
  unfold Client.gameStart. by rewrite Hfilter.
Qed.

(** ** The viewport that follows a player *)

(** X24. [initializeViewerPosition] throws, and changes nothing, when
    no game client has been set.  With a client it follows the client's
    player from then on: a later location change moves the viewer if and
    only if it is the one of that player.  This holds also when the call
    throws because the game state does not know that player: the viewer
    then stays where it was, but the player is followed already.  When
    the player is known, the viewer is centred on the middle of its
    cell, clamped. *)
Theorem viewer_follows_the_client_player
    (getPlayer : option string → option (number * number)) (this : Follow.t) :
  (Follow.gameClient this = Follow.null →
     Follow.initializeViewerPosition getPlayer this = (this, Follow.threw)) ∧
  (∀ id,
     Follow.gameClient this = Follow.value id →
     ∃ this' how,
       Follow.initializeViewerPosition getPlayer this = (this', how) ∧
       match getPlayer id with
       | Some (x, y) =>
           how = Follow.returned ∧
           Follow.renderer this'
           = MapRenderer.setViewerPosition (Follow.renderer this)
               (x + Follow.half)%num (y + Follow.half)%num
       | None =>
           how = Follow.threw ∧ Follow.renderer this' = Follow.renderer this
       end ∧
       ∀ loc,
         (Follow.playerID loc = Follow.value id →
            Follow.renderer (Follow.onPlayerLocationChange this' loc)
            = MapRenderer.setViewerPosition (Follow.renderer this')
                (Follow.lx loc + Follow.half)%num
                (Follow.ly loc + Follow.half)%num) ∧
         (Follow.playerID loc ≠ Follow.value id →
            Follow.onPlayerLocationChange this' loc = this')).
Proof.
  unfold Follow.initializeViewerPosition. split.
  - by intros ->.
  - intros id ->. cbn [Follow.viewportFollow Follow.renderer].
    assert (∀ this' : Follow.t,
              Follow.viewportFollow this' = Follow.value id →
              ∀ loc,
                (Follow.playerID loc = Follow.value id →
                   Follow.renderer (Follow.onPlayerLocationChange this' loc)
                   = MapRenderer.setViewerPosition (Follow.renderer this')
                       (Follow.lx loc + Follow.half)%num
                       (Follow.ly loc + Follow.half)%num) ∧
                (Follow.playerID loc ≠ Follow.value id →
                   Follow.onPlayerLocationChange this' loc = this'))
      as Hfollow.
    { intros this' Hthis' loc.
      unfold Follow.onPlayerLocationChange, Follow.follows.
      rewrite Hthis'. split; intros Hid.
      - rewrite Hid. cbn [Follow.strict_eq].
        by rewrite bool_decide_eq_true_2.
      - destruct (Follow.playerID loc) as [|id']; [done|].
        cbn [Follow.strict_eq]. rewrite bool_decide_eq_false_2; [done|].
        congruence. }
    destruct (getPlayer id) as [[x y]|];
      do 2 eexists; (split; [reflexivity|]); (split; [done|]);
      by apply Hfollow.
Qed.

(** X25. Until [initializeViewerPosition] has run, [viewportFollow] is
    [null], and a location change moves the viewer only if its
    [playerID] is [null] as well.  After the constructor, and after
    [setGameClient], any sequence of location changes of players whose
    id is not [null] leaves the renderer as it was, with the viewer at
    [(NaN, NaN)]; a location change whose [playerID] is [null] centres
    the viewer on its cell. *)
Theorem no_follow_before_initialization
    (canvas mapSize : MapRenderer.Size) (players : list MapRenderer.Sprite)
    (client : option string) :
  (∀ locs : list Follow.Location,
     Forall (λ loc, Follow.playerID loc ≠ Follow.null) locs →
     foldl Follow.onPlayerLocationChange
       (Follow.constructor canvas mapSize players) locs
     = Follow.constructor canvas mapSize players ∧
     foldl Follow.onPlayerLocationChange
       (Follow.setGameClient (Follow.constructor canvas mapSize players)
                             client)
       locs
     = Follow.setGameClient (Follow.constructor canvas mapSize players)
                            client ∧
     MapRenderer.viewerPosition
       (Follow.renderer
          (foldl Follow.onPlayerLocationChange
             (Follow.setGameClient (Follow.constructor canvas mapSize players)
                                   client)
             locs))
     = (NaN, NaN)) ∧
  (∀ loc : Follow.Location,
     Follow.playerID loc = Follow.null →
     Follow.renderer
       (Follow.onPlayerLocationChange
          (Follow.setGameClient (Follow.constructor canvas mapSize players)
                                client)
          loc)
     = MapRenderer.setViewerPosition
         (MapRenderer.constructor canvas mapSize players)
         (Follow.lx loc + Follow.half)%num (Follow.ly loc + Follow.half)%num).
Proof.
  split.
  - intros locs Hlocs.
    assert (∀ this, Follow.viewportFollow this = Follow.null →
              foldl Follow.onPlayerLocationChange this locs = this) as Hnull.
    { intros this Hthis. induction Hlocs as [|loc locs Hloc _ IH]; [done|].
      cbn [foldl]. unfold Follow.onPlayerLocationChange at 2, Follow.follows.
      rewrite Hthis. by destruct (Follow.playerID loc). }
    rewrite !Hnull by done. done.
  - intros loc Hloc.
    unfold Follow.onPlayerLocationChange, Follow.follows.
    by rewrite Hloc.
Qed.

(** ** More on the round trip *)

(** X26. A consistent player comes back consistent from [toJSON] and
    [fromObject], in the state that holds its new coordinates; so
    [getDrawInfo] does not throw on it either. *)
Theorem roundtrip_keeps_consistent (p : Player.t) (s : state) :
  consistent s p →
  ∃ p' s',
    Player.fromObject (Player.toJSON p) s = Ok p' s' ∧
    consistent s' p' ∧
    Player.lastMovingTime p' = Player.lastMovingTime p.
Proof.
  intros (Htime & Hprev & Hcur & Hold).
  unfold Player.fromObject, Player.toJSON. cbn [Obj.mapCoord get].
  destruct (Player.mapCoord p) as [l|] eqn:Hl.
  - destruct (Hcur l eq_refl) as [c Hc].
    destruct (fromObject_copy s l c Hc) as (l1 & Hcopy & Hfresh).
    set (s1 := mkState (<[l1 := c]> (store s)) (console s)).
    assert (store s1 !! l = Some c) as Hc1.
    { unfold s1. simpl. rewrite lookup_insert_ne; [done|]. congruence. }
    destruct (fromObject_copy s1 l c Hc1) as (l2 & Hcopy1 & Hfresh1).
    unfold mbind, M_bind. rewrite Hcopy. fold s1. rewrite Hcopy1.
    do 2 eexists. split; [reflexivity|]. split; [|done].
    unfold consistent. simpl. repeat split; try by eauto.
    + intros ? [= <-]. exists c. simpl.
      rewrite lookup_insert_ne, lookup_insert_eq; [done|].
      intros ->. unfold s1 in Hfresh1. simpl in Hfresh1.
      by rewrite lookup_insert_eq in Hfresh1.
    + intros ? [= <-]. exists c. simpl. by rewrite lookup_insert_eq.
  - do 2 eexists. split; [reflexivity|]. split; [|done].
    unfold consistent. simpl.
    repeat split; try done; by intros ? [=].
Qed.

(** ** The further properties at work on the sample values *)

Lemma consistent_sample : consistent Sample.s0 Sample.p1.
Proof.
  repeat split; try (intros _; by eexists).
  - apply (allocated_lookup _ _ (Sample.at_ 5 5)). reflexivity.
  - apply (allocated_lookup _ _ (Sample.at_ 4 5)). reflexivity.
Qed.

(** X1 on the samples: "p1" takes the message that moves it to
    [(6,5)]. *)
Lemma updateFromMessage_merges_witness :
  ∃ this',
    Player.updateFromMessage Sample.p1 Sample.msg_move Sample.now Sample.s0
    = Ok (true, this') Sample.s0 ∧
    Player.facing this' = Some "D" ∧
    Player.removed this' = Some false.
Proof.
  assert (Player.updateFromMessage Sample.p1 Sample.msg_move Sample.now
            Sample.s0
          = Ok (true,
                Player.mk (Some "p1") (Some "p1") (Some "char1")
                  (Some 4%positive) (Some "D") (Some Sample.now)
                  (Some 1%positive) (Some false))
               Sample.s0) as Hrun.
  { vm_compute. reflexivity. }
  destruct (updateFromMessage_merges _ _ _ _ _ _ Hrun)
    as (_ & _ & Hfacing & _ & _ & Hremoved).
  eexists. split; [exact Hrun|]. split; [exact Hfacing | exact Hremoved].
Defined.

(** X2 on the samples: a message for "p1" that only turns it. *)
Lemma updateFromMessage_without_position_witness :
  ∃ this',
    Player.updateFromMessage Sample.p1
      (PlayerSyncMessage.mk (Some "p1") None (Some "U") None None
                            (Some false) None None)
      Sample.now Sample.s0
    = Ok (true, this') Sample.s0 ∧
    Player.mapCoord this' = Some 1%positive.
Proof.
  destruct (updateFromMessage_without_position Sample.p1
              (PlayerSyncMessage.mk (Some "p1") None (Some "U") None None
                                    (Some false) None None)
              Sample.now Sample.s0)
    as (this' & Hrun & Hpos & _).
  - reflexivity.
  - reflexivity.
  - by exists this'.
Defined.

(** X3 on the samples: "p1" and the message that moves it. *)
Lemma updateFromMessage_keeps_consistent_witness :
  ∃ applied this',
    Player.updateFromMessage Sample.p1 Sample.msg_move Sample.now Sample.s0
    = Ok (applied, this') Sample.s0 ∧
    consistent Sample.s0 this'.
Proof.
  apply (proj2 (updateFromMessage_keeps_consistent
                  Sample.p1 Sample.msg_move Sample.now Sample.s0)).
  - apply consistent_sample.
  - apply (allocated_lookup _ _ (Sample.at_ 6 5)). reflexivity.
Defined.

(** X4 on the samples: "p1" half way through its move. *)
Lemma getDrawInfo_returns_witness :
  ∃ info s',
    Player.getDrawInfo (Num.of_Z 300) Sample.p1 (Num.of_Z 1150) Sample.s0
    = Ok info s'.
Proof.
  apply (getDrawInfo_returns (Num.of_Z 300) Sample.p1 (Num.of_Z 1150)
                             Sample.s0).
  apply consistent_sample.
Defined.

(** X6 on the samples: at 1200 ms "p1" is in frame 0 of the walk. *)
Lemma getDrawInfo_walk_cycle_witness :
  drawn_facing (Num.of_Z 300) Sample.p1 (Num.of_Z 1200) Sample.s0
  = Some (Some "DR").
Proof.
  apply (getDrawInfo_walk_cycle (Num.of_Z 300) Sample.p1 1200 Sample.s0
           2%positive 1%positive (Sample.at_ 4 5) (Sample.at_ 5 5)).
  - vm_compute. discriminate.
  - vm_compute. reflexivity.
  - reflexivity.
  - reflexivity.
  - reflexivity.
  - reflexivity.
Defined.

(** X7 on the samples: "p1" long after its move. *)
Lemma getDrawInfo_at_rest_witness :
  Player.getDrawInfo (Num.of_Z 300) Sample.p1 Sample.now Sample.s0
  = Ok (Player.mkDrawInfo (Some 1%positive) (Some "char1") (Some "D")
                          (Some "p1"))
       Sample.s0.
Proof.
  apply (getDrawInfo_at_rest (Qc_of_Z 300) (Qc_of_Z 1000) (Qc_of_Z 5000)
                             Sample.p1 Sample.s0).
  - reflexivity.
  - vm_compute. discriminate.
Defined.

(** X8 on the samples: a player that has a time of the last move and no
    position. *)
Lemma getDrawInfo_throws_witness :
  Player.getDrawInfo (Num.of_Z 300)
    (Player.mk (Some "p1") (Some "p1") (Some "char1") None (Some "D")
               (Some Sample.t0) None None)
    (Num.of_Z 1100) Sample.s0
  = TypeError.
Proof.
  apply (proj1 (getDrawInfo_throws (Num.of_Z 300)
                  (Player.mk (Some "p1") (Some "p1") (Some "char1") None
                             (Some "D") (Some Sample.t0) None None)
                  (Num.of_Z 1100) Sample.s0
                  ltac:(vm_compute; reflexivity))).
  reflexivity.
Defined.

(** X10 on the samples: a message built with a position and nothing
    else. *)
Lemma constructed_message_roundtrip_witness :
  ∃ m,
    PlayerSyncMessage.constructor (Some "p1") (Some 4%positive) None None
      None None None None Sample.s0 = Ok m Sample.s0 ∧
    message_roundtrip_exact m Sample.s0.
Proof.
  apply (constructed_message_roundtrip "p1" (Some 4%positive) None None None
           None None None Sample.s0).
  apply (allocated_lookup _ _ (Sample.at_ 6 5)). reflexivity.
Defined.

(** X11 on the samples: "p1" through [toJSON] and [fromObject]. *)
Lemma Player_fromObject_allocates_witness :
  ∃ p' s' l1 l2,
    Player.fromObject (Player.toJSON Sample.p1) Sample.s0 = Ok p' s' ∧
    Player.mapCoord p' = Some l1 ∧
    Player._previousMapCoord p' = Some l2 ∧
    l1 ≠ l2.
Proof.
  destruct (proj1 (Player_fromObject_allocates (Player.toJSON Sample.p1)
                     Sample.s0) 1%positive (Sample.at_ 5 5))
    as (p' & s' & l1 & l2 & Hrun & Hpos & Hprev & Hne & _).
  - reflexivity.
  - reflexivity.
  - by exists p', s', l1, l2.
Defined.

(** X12 on the samples: an object with a position and no [playerID]. *)
Lemma message_without_playerID_witness :
  ∃ m s',
    PlayerSyncMessage.fromObject
      (Obj.mk NoKey NoKey NoKey (Key (Some 4%positive)) NoKey NoKey NoKey
              NoKey NoKey)
      Sample.s0 = Ok m s' ∧
    PlayerSyncMessage.playerID m = None ∧
    Player.updateFromMessage Sample.p1 m Sample.now s'
    = Ok (false, Sample.p1) s'.
Proof.
  destruct (message_without_playerID
              (Obj.mk NoKey NoKey NoKey (Key (Some 4%positive)) NoKey NoKey
                      NoKey NoKey NoKey)
              Sample.s0)
    as (m & s' & Hrun & _ & Hid & _ & _ & _ & _ & _ & _ & _ & Hrefused).
  - reflexivity.
  - apply (allocated_lookup _ _ (Sample.at_ 6 5)). reflexivity.
  - exists m, s'. split; [exact Hrun|]. split; [exact Hid|].
    apply Hrefused. by eexists.
Defined.

(** X13 on the samples: the key of "p1". *)
Lemma getRedisKey_injective_witness :
  Player.getRedisKey (Some "p1") = "p-p1" ∧ "p1" = "p1".
Proof.
  split; [reflexivity|].
  apply (proj1 getRedisKey_injective "p1" "p1"). reflexivity.
Defined.

(** X15 on the samples: a canvas of 640 by 480 pixels over a map of 10
    by 10 cells. *)
Lemma setViewerPosition_narrow_map_witness :
  fst (MapRenderer.viewerPosition
         (MapRenderer.setViewerPosition
            (MapRenderer.constructor (MapRenderer.mkSize 640 480)
                                     (MapRenderer.mkSize 10 10) [])
            (Num.of_Z 3) (Num.of_Z 3)))
  = Fin (maxX (MapRenderer.constructor (MapRenderer.mkSize 640 480)
                                       (MapRenderer.mkSize 10 10) [])).
Proof.
  apply (proj1 (setViewerPosition_narrow_map
                  (MapRenderer.constructor (MapRenderer.mkSize 640 480)
                                           (MapRenderer.mkSize 10 10) [])
                  (Qc_of_Z 3) (Qc_of_Z 3))).
  vm_compute. reflexivity.
Defined.

(** X19 on the samples: the map has every cell, so the ground layer
    returns. *)
Lemma drawGround_draws_cells_of_the_map_witness :
  snd (MapRenderer._drawGround SampleRenderer.every_cell SampleRenderer.r0)
  = MapRenderer.returns true.
Proof.
  destruct (drawGround_draws_cells_of_the_map SampleRenderer.every_cell
              SampleRenderer.r0) as (cmds & _ & _ & Hret).
  apply Hret. intros mapX mapY _ _. by eexists.
Defined.


(** X20 on the samples: the renderer as the constructor leaves it, on a
    map without any render info. *)
Lemma drawGround_before_the_viewer_is_set_witness :
  MapRenderer._drawGround (λ _ _ _, None)
    (MapRenderer.constructor (MapRenderer.mkSize 640 480)
                             (MapRenderer.mkSize 100 100) [])
  = (MapRenderer.constructor (MapRenderer.mkSize 640 480)
                             (MapRenderer.mkSize 100 100) [],
     MapRenderer.returns true).
Proof.
  apply (drawGround_before_the_viewer_is_set (λ _ _ _, None)
           (MapRenderer.constructor (MapRenderer.mkSize 640 480)
                                    (MapRenderer.mkSize 100 100) [])).
  left. reflexivity.
Defined.

(** X22 on the samples: one player, drawn by a renderer as the
    constructor leaves it. *)
Lemma drawPlayers_before_the_viewer_is_set_witness :
  MapRenderer.ctx
    (fst (MapRenderer._drawPlayers SampleRenderer.every_character
            (MapRenderer.constructor (MapRenderer.mkSize 640 480)
               (MapRenderer.mkSize 100 100)
               [MapRenderer.mkSprite (Num.of_Z 10) (Num.of_Z 10)
                  (Some "char1") (Some "D") (Some "p1")])))
  = [sprite SampleRenderer.noInfo (NaN, NaN)] ++ label_style
      ++ [MapRenderer.fillText (Some "p1") NaN NaN; MapRenderer.restore].
Proof.
  destruct (drawPlayers_before_the_viewer_is_set
              SampleRenderer.every_character (λ _, SampleRenderer.noInfo)
              (MapRenderer.constructor (MapRenderer.mkSize 640 480)
                 (MapRenderer.mkSize 100 100)
                 [MapRenderer.mkSprite (Num.of_Z 10) (Num.of_Z 10)
                    (Some "char1") (Some "D") (Some "p1")])
              eq_refl (λ _ _, eq_refl)) as [_ Hdrawn].
  unfold drawn_onto in Hdrawn. rewrite Hdrawn. reflexivity.
Defined.

(** X23 on the samples: one guidepost, whose image does not load. *)
Lemma gameStart_failed_load_witness :
  ∃ g,
    g ∈ [Client.mkGuidepost "post" "/static/post.png" None] ∧
    Client.gameStart (λ _, false) (λ _ this, (this, true))
      [Client.mkGuidepost "post" "/static/post.png" None] [] Sample.s0
    = Ok [] (mkState (store Sample.s0)
                     (console Sample.s0
                        ++ ["error on loading " +:+ Client.src g])).
Proof.
  destruct (gameStart_failed_load (λ _, false) (λ _ this, (this, true))
              [Client.mkGuidepost "post" "/static/post.png" None] []
              Sample.s0)
    as (g & Hin & _ & Hrun).
  - left. reflexivity.
  - by exists g.
Defined.

(** X24 on the samples: the client plays "p1", who stands on
    [(10, 10)]. *)
Lemma viewer_follows_the_client_player_witness :
  ∃ this' how,
    Follow.initializeViewerPosition
      (λ _, Some (Num.of_Z 10, Num.of_Z 10))
      (Follow.setGameClient
         (Follow.constructor (MapRenderer.mkSize 640 480)
                             (MapRenderer.mkSize 100 100) [])
         (Some "p1"))
    = (this', how) ∧
    how = Follow.returned ∧
    Follow.onPlayerLocationChange this'
      (Follow.mkLocation (Follow.value (Some "p2")) (Num.of_Z 3) (Num.of_Z 4))
    = this'.
Proof.
  destruct (proj2 (viewer_follows_the_client_player
                     (λ _, Some (Num.of_Z 10, Num.of_Z 10))
                     (Follow.setGameClient
                        (Follow.constructor (MapRenderer.mkSize 640 480)
                                            (MapRenderer.mkSize 100 100) [])
                        (Some "p1")))
              (Some "p1") eq_refl)
    as (this' & how & Hrun & [Hhow _] & Hfollow).
  exists this', how. split; [exact Hrun|]. split; [exact Hhow|].
  apply Hfollow. simpl. discriminate.
Defined.

(** X25 on the samples: before the viewer is initialized, the moves of
    "p1" and "p2" leave it at [(NaN, NaN)]; a move whose [playerID] is
    [null] puts it on [(10, 7.5)], the corner of the range. *)
Lemma no_follow_before_initialization_witness :
  MapRenderer.viewerPosition
    (Follow.renderer
       (foldl Follow.onPlayerLocationChange
          (Follow.setGameClient
             (Follow.constructor (MapRenderer.mkSize 640 480)
                                 (MapRenderer.mkSize 100 100) [])
             (Some "p1"))
          [Follow.mkLocation (Follow.value (Some "p1"))
             (Num.of_Z 3) (Num.of_Z 4);
           Follow.mkLocation (Follow.value (Some "p2"))
             (Num.of_Z 7) (Num.of_Z 7)]))
  = (NaN, NaN) ∧
  MapRenderer.viewerPosition
    (Follow.renderer
       (Follow.onPlayerLocationChange
          (Follow.setGameClient
             (Follow.constructor (MapRenderer.mkSize 640 480)
                                 (MapRenderer.mkSize 100 100) [])
             (Some "p1"))
          (Follow.mkLocation Follow.null (Num.of_Z 3) (Num.of_Z 4))))
  = (Num.of_Z 10, Fin (Qc_of_Z 15 / Qc_of_Z 2)).
Proof.
  split.
  - apply (proj1 (no_follow_before_initialization
                    (MapRenderer.mkSize 640 480) (MapRenderer.mkSize 100 100)
                    [] (Some "p1"))).
    repeat constructor; discriminate.
  - rewrite (proj2 (no_follow_before_initialization
                      (MapRenderer.mkSize 640 480)
                      (MapRenderer.mkSize 100 100) [] (Some "p1")))
      by reflexivity.
    vm_compute. f_equal; f_equal; apply Qc_is_canon; reflexivity.
Defined.

(** X26 on the samples: "p1" through [toJSON] and [fromObject]. *)
Lemma roundtrip_keeps_consistent_witness :
  ∃ p' s',
    Player.fromObject (Player.toJSON Sample.p1) Sample.s0 = Ok p' s' ∧
    consistent s' p'.
Proof.
  destruct (roundtrip_keeps_consistent Sample.p1 Sample.s0 consistent_sample)
    as (p' & s' & Hrun & Hconsistent & _).
  by exists p', s'.
Defined.
